(** * wsprstats: the incremental WSPR ingestion pipeline

    A shallow embedding of [ingest.py] and [dbutils.py]: the archive
    fetcher ([get_size], [download_archive]), the spot reader
    ([read_spots]), the storage gateway ([SQL_TABLE], [DBConnect],
    [create_db]), the [Timer] and the coordinator ([wspr_import], [main]).

    Python values are modelled as follows.
    - [str] is [string], read as a sequence of code points below 256;
      [bytes] is [list Byte.byte]; [int] is [Z].
    - A raised exception is a value of [exn]; a function that can raise
      returns a sum or carries an [option exn].
    - The generator of [read_spots] is a state with a [gen_next] function
      whose three outcomes are a yielded record, [StopIteration] and a
      raised exception.
    - A SQLite connection is the durable database together with the rows
      of the open transaction; every call made on it is appended to a
      trace of operations.
    - [int], the geo resolver, the gzip decoder and SQLite's conversion of
      a text to a row id are parameters of the development. *)

From Stdlib Require Import ZArith String Ascii List Lia DecimalString.
From stdpp Require Import base option list strings gmap.

Local Open Scope string_scope.
Local Open Scope list_scope.
Local Open Scope Z_scope.

(** ** Python strings *)

Module PyStr.

(** [str.isspace] on one character (code points below 256): TAB..CR,
    FS..US, space, NEL and NBSP. *)
Definition isspace (c : ascii) : bool :=
  let n := N_of_ascii c in
  ((9 <=? n) && (n <=? 13) || (28 <=? n) && (n <=? 32)
   || (n =? 133) || (n =? 160))%N.

(** [s.rstrip()]: drop the trailing white space. *)
Fixpoint rstrip (s : string) : string :=
  match s with
  | EmptyString => EmptyString
  | String c s' =>
      match rstrip s' with
      | EmptyString => if isspace c then EmptyString else String c EmptyString
      | r => String c r
      end
  end.

(** [s.split(sep)] for a one-character separator: never the empty list. *)
Fixpoint split (sep : ascii) (s : string) : list string :=
  match s with
  | EmptyString => [EmptyString]
  | String c s' =>
      if Ascii.eqb c sep then EmptyString :: split sep s'
      else match split sep s' with
           | [] => [String c EmptyString]
           | w :: ws => String c w :: ws
           end
  end.

Fixpoint replicate_char (n : nat) (c : ascii) : string :=
  match n with
  | O => EmptyString
  | S n' => String c (replicate_char n' c)
  end.

(** [str(n)] for an [int]. *)
Definition str_of_nonneg (n : Z) : string :=
  NilZero.string_of_uint (N.to_uint (Z.to_N n)).

(** [format(n, "{w}d")] and [format(n, "0{w}d")]: decimal, right-aligned
    in [width] columns, padded with spaces before the sign or with zeros
    after it. *)
Definition format_d (zero : bool) (width : nat) (n : Z) : string :=
  let sign := if n <? 0 then "-" else "" in
  let digits := str_of_nonneg (Z.abs n) in
  let pad := (width - (String.length sign + String.length digits))%nat in
  if zero then sign +:+ replicate_char pad "0" +:+ digits
  else replicate_char pad " " +:+ sign +:+ digits.

End PyStr.

(** ** Exceptions *)

Inductive exn : Type :=
| ValueError
| IndexError
| TypeError
| ZeroDivisionError
| URLError
| HTTPError
| ConnectionResetError
| IncompleteRead
| OSError
| IntegrityError
| ProgrammingError
| OperationalError
| ResolverError.

(** [isinstance(e, URLError)]: [HTTPError] is the only subclass here. *)
Definition is_URLError (e : exn) : bool :=
  match e with
  | URLError | HTTPError => true
  | _ => false
  end.

(** The exceptions the network layer raises: those of [urlopen] and
    those of reading the body of a response. *)
Definition is_network_error (e : exn) : bool :=
  match e with
  | URLError | HTTPError | ConnectionResetError | IncompleteRead => true
  | _ => false
  end.


(** The outcome of a call that can raise. *)
Inductive result (A : Type) : Type :=
| Ok (a : A)
| Raise (e : exn).
Arguments Ok {A} a.
Arguments Raise {A} e.

(** ** Data shared by the components *)

(** [datetime.now()]: the two attributes the pipeline reads. *)
Record datetime := Datetime { dt_year : Z; dt_month : Z }.

(** What iterating a gzip text stream gives: lines, then the end of the
    file or an exception. *)
Record archive := Archive { a_lines : list string; a_error : option exn }.

(** One [resp.read(BUF_SIZE)]. *)
Inductive read_result : Type :=
| Chunk (b : list Byte.byte)
| ReadRaises (e : exn).

(** [urlopen(url)]: an exception, or a response with its [length]
    attribute ([None] without a Content-Length) and the successive reads
    of its body; past the end of the list a read returns [b'']. *)
Inductive urlopen_result : Type :=
| UrlRaises (e : exn)
| UrlResponse (length : option Z) (reads : list read_result).

(** Statements of the schema script. *)
Inductive stmt : Type :=
| CreateTable (if_not_exists : bool) (name : string)
| CreateIndex (name table column : string)
| Pragma (name value : string).

Inductive level : Type := INFO | WARNING.

(** The messages handed to [logging], by call site. A [MsgTimer] holds
    the parts [Timer.__exit__] joins: the hour and minute parts are
    optional, and so is the rate, a pair of [nb_lines] and the elapsed
    time. *)
Inductive msg : Type :=
| MsgNoNewData (url : string)
| MsgDownloading (url : string)
| MsgHTTPError (e : exn)
| MsgRecordsProcessed (counter : Z)
| MsgNothingToImport
| MsgDatabase (name : string)
| MsgCountingRecords
| MsgLastId (last_id : Z)
| MsgImporting (filename : string)
| MsgTimer (title : string) (hour minute : option Z) (sec milliseconds : Z)
    (rate : option (Z * Z))
| MsgCacheInfo.

(** Command line options, as [parse_args] returns them. *)
Record options := Options {
  opt_force : bool;
  opt_filename : option string;
  opt_month : option Z
}.

Definition BULK_LENGTH : nat := 1000.
Definition WSPR_ARCHIVE : string := "http://wsprnet.org/archive/".

(** [WSPR_FILE.format(year, month)] for
    [WSPR_FILE = "wsprspots-{:4d}-{:02d}.csv.gz"]. *)
Definition WSPR_FILE_format (year month : Z) : string :=
  "wsprspots-" +:+ PyStr.format_d false 4 year +:+ "-"
  +:+ PyStr.format_d true 2 month +:+ ".csv.gz".

(** The columns of the table [wspr], in the order of the
    [CREATE TABLE] statement of [SQL_TABLE]. *)
Definition wspr_columns : list string :=
  [ "spot_id"; "time"; "tx_call"; "tx_grid"; "snr"; "frequency"; "rx_call";
    "rx_grid"; "power"; "drift"; "distance"; "azimuth"; "band"; "version";
    "code"; "tx_lat"; "tx_lon"; "rx_lat"; "rx_lon" ].

(** The schema script of [dbutils.py]. Only the table has
    [IF NOT EXISTS]; its columns are [wspr_columns]. *)
Definition SQL_TABLE : list stmt :=
  [ CreateTable true "wspr";
    CreateIndex "idx_time" "wspr" "time";
    CreateIndex "idx_tx_call" "wspr" "tx_call";
    CreateIndex "idx_rx_call" "wspr" "rx_call";
    CreateIndex "idx_band" "wspr" "band";
    Pragma "synchronous" "EXTRA";
    Pragma "journal_mode" "WAL" ].

(** The number of [?] in [INSERT]. *)
Definition INSERT_bindings : nat := 19.

Fixpoint ends_with (c : ascii) (s : string) : bool :=
  match s with
  | EmptyString => false
  | String a EmptyString => Ascii.eqb a c
  | String _ s' => ends_with c s'
  end.

(** [os.path.join(a, b)] for a [b] that does not start with a slash. *)
Definition path_join (a b : string) : string :=
  match a with
  | EmptyString => b
  | _ => if ends_with "/" a then a +:+ b else a +:+ "/" +:+ b
  end.

(** [urljoin(base, name)] for a base that ends with a slash and a name
    that is one relative path segment: the name replaces the empty last
    segment of the base. *)
Definition urljoin (base name : string) : string := base +:+ name.

(** A value of a record: a field of the line or a coordinate, a Python
    [float] of type [Coord]. *)
Inductive field (Coord : Type) : Type :=
| FStr (s : string)
| FFloat (x : Coord).
Arguments FStr {Coord} s.
Arguments FFloat {Coord} x.

(** What the pipeline takes from outside [ingest.py] and [dbutils.py]. *)
Class Platform (Coord : Type) := {
  (** [int(s)]; [None] is [ValueError]. *)
  py_int : string -> option Z;
  (** [geo.grid2latlon], the geo resolver: a pair of coordinates, or the
      exception it raises. *)
  grid2latlon : field Coord -> result (Coord * Coord);
  (** The decoded content of a gzip file. *)
  gzip_open : list Byte.byte -> archive;
  (** The row id SQLite stores for a value bound to an
      [INTEGER PRIMARY KEY] column; [None] is a datatype mismatch. *)
  sqlite_rowid : field Coord -> option Z;
  (** The two constants [ingest.py] imports from [dbutils]. *)
  DB_NAME : string;
  WSPR_PATH : string
}.

Section Pipeline.

Context {Coord : Type} `{!Platform Coord}.

Definition record : Type := list (field Coord).

(** ** The spot reader *)

Inductive line_result : Type :=
| Skip
| Emit (r : record)
| Fail (e : exn).

(** The body of the loop of [read_spots] for one line. The second
    [fields[...]] reads the list the first [extend] has made longer. *)
Definition read_line (start_id : Z) (line : string) : line_result :=
  let fields := PyStr.split "," (PyStr.rstrip line) in
  match fields !! 0%nat with
  | None => Fail IndexError
  | Some f0 =>
      match py_int f0 with
      | None => Fail ValueError
      | Some id =>
          if id <=? start_id then Skip
          else
            let fields : record := FStr <$> fields in
            match fields !! 3%nat with
            | None => Fail IndexError
            | Some tx =>
                match grid2latlon tx with
                | Raise e => Fail e
                | Ok (tx_lat, tx_lon) =>
                    let fields := fields ++ [FFloat tx_lat; FFloat tx_lon] in
                    match fields !! 7%nat with
                    | None => Fail IndexError
                    | Some rx =>
                        match grid2latlon rx with
                        | Raise e => Fail e
                        | Ok (rx_lat, rx_lon) =>
                            Emit (fields ++ [FFloat rx_lat; FFloat rx_lon])
                        end
                    end
                end
            end
      end
  end.

(** The generator [read_spots(filename, start_id)]: the watermark, the
    lines not read yet and how the stream ends. *)
Record gen := Gen {
  g_start : Z;
  g_lines : list string;
  g_error : option exn
}.

Inductive next_result : Type :=
| Yield (r : record) (g : gen)
| StopIteration
| NextRaise (e : exn).

Fixpoint next_lines (start_id : Z) (err : option exn) (lines : list string)
  : next_result :=
  match lines with
  | [] => match err with
          | Some e => NextRaise e
          | None => StopIteration
          end
  | line :: rest =>
      match read_line start_id line with
      | Skip => next_lines start_id err rest
      | Emit r => Yield r (Gen start_id rest err)
      | Fail e => NextRaise e
      end
  end.

(** [wspot.__next__()]. *)
Definition gen_next (g : gen) : next_result :=
  next_lines (g_start g) (g_error g) (g_lines g).

Definition read_spots (a : archive) (start_id : Z) : gen :=
  Gen start_id (a_lines a) (a_error a).

(** The whole sequence the generator yields, with how it ends: [None]
    for [StopIteration]. *)
Fixpoint drain_lines (start_id : Z) (err : option exn) (lines : list string)
  : list record * option exn :=
  match lines with
  | [] => ([], err)
  | line :: rest =>
      match read_line start_id line with
      | Skip => drain_lines start_id err rest
      | Emit r => let (rs, e) := drain_lines start_id err rest in (r :: rs, e)
      | Fail e => ([], Some e)
      end
  end.

Definition drain (g : gen) : list record * option exn :=
  drain_lines (g_start g) (g_error g) (g_lines g).

(** The leading field of a line and of a record, as [int] reads it. *)
Definition line_id (line : string) : option Z :=
  PyStr.split "," (PyStr.rstrip line) !! 0%nat ≫= py_int.

Definition record_id (r : record) : option Z :=
  match r with
  | FStr s :: _ => py_int s
  | _ => None
  end.

(** ** The storage gateway *)

Record row := Row { spot_id : Z; columns : record }.

(** A database file: the names of its tables, its indexes with their
    table and column, the pragmas that are stored in the file and the
    rows of table [wspr]. The table [wspr], when the file has it, is the
    one [SQL_TABLE] creates: this program is the only one that makes
    it. *)
Record database := Database {
  tables : gset string;
  indexes : gmap string (string * string);
  pragmas : gmap string string;
  rows : list row
}.

Definition empty_database : database := Database ∅ ∅ ∅ [].

(** The calls made on connections, in order. *)
Inductive db_op : Type :=
| OpConnect
| OpExecutescript (err : option exn)
| OpSelectMax
| OpExecutemany (bulk : list record) (err : option exn)
| OpCommit
| OpClose.

(** A connection: the database as committed, the rows inserted by the
    open transaction and the calls made so far. *)
Record connection := Connection {
  c_db : database;
  c_pending : list row;
  c_trace : list db_op
}.

Definition traced (op : db_op) (c : connection) : connection :=
  Connection (c_db c) (c_pending c) (c_trace c ++ [op]).

(** [sqlite3.connect(db_name)]: a missing file is created empty. *)
Definition connect (db : option database) : connection :=
  Connection (default empty_database db) [] [OpConnect].

(** [conn.commit()]. *)
Definition commit (c : connection) : connection :=
  let db := c_db c in
  Connection
    (Database (tables db) (indexes db) (pragmas db) (rows db ++ c_pending c))
    [] (c_trace c ++ [OpCommit]).

(** [conn.close()]: an open transaction is rolled back. *)
Definition close (c : connection) : database * list db_op :=
  (c_db c, c_trace c ++ [OpClose]).

(** The scoped wrapper: [__enter__], the body of the [with], then
    [__exit__], which commits and closes whether or not the body raised,
    and lets the exception through. *)
Definition DBConnect_exit (c : connection) : database * list db_op :=
  close (commit c).

Definition DBConnect {A : Type} (db : option database)
    (body : connection -> connection * result A)
  : database * list db_op * result A :=
  let (c, r) := body (connect db) in
  (DBConnect_exit c, r).

(** Of the pragmas of [SQL_TABLE], [journal_mode] is stored in the
    database file; [synchronous] is a setting of the connection and ends
    with it. *)
Definition stored_pragma (name : string) : bool :=
  bool_decide (name = "journal_mode").

(** One statement. Tables and indexes share their names: a new index
    cannot have the name of an index or of a table, nor a new table the
    name of an index, and [IF NOT EXISTS] covers a table of the same
    name only. An index on [wspr] needs a column of [wspr]; the columns
    of other tables are not known here. *)
Definition exec_stmt (db : database) (s : stmt) : result database :=
  match s with
  | CreateTable if_not_exists name =>
      if decide (name ∈ tables db) then
        if if_not_exists then Ok db else Raise OperationalError
      else if decide (is_Some (indexes db !! name)) then Raise OperationalError
      else Ok (Database ({[name]} ∪ tables db) (indexes db) (pragmas db) (rows db))
  | CreateIndex name table column =>
      if decide (is_Some (indexes db !! name)) then Raise OperationalError
      else if decide (name ∈ tables db) then Raise OperationalError
      else if decide (table ∈ tables db) then
        if decide (table = "wspr" ∧ column ∉ wspr_columns)
        then Raise OperationalError
        else Ok (Database (tables db) (<[name := (table, column)]> (indexes db))
                   (pragmas db) (rows db))
      else Raise OperationalError
  | Pragma name value =>
      if stored_pragma name then
        Ok (Database (tables db) (indexes db) (<[name := value]> (pragmas db))
              (rows db))
      else Ok db
  end.

(** The statements run one after the other, each taking effect at once;
    the first error stops the script. *)
Fixpoint exec_script (db : database) (script : list stmt)
  : database * option exn :=
  match script with
  | [] => (db, None)
  | s :: rest =>
      match exec_stmt db s with
      | Ok db' => exec_script db' rest
      | Raise e => (db, Some e)
      end
  end.

(** [cursor.executescript(script)]: a pending transaction is committed
    first. *)
Definition executescript (c : connection) (script : list stmt)
  : connection * result unit :=
  let db := c_db c in
  let db0 := Database (tables db) (indexes db) (pragmas db) (rows db ++ c_pending c) in
  let (db1, err) := exec_script db0 script in
  (Connection db1 [] (c_trace c ++ [OpExecutescript err]),
   match err with Some e => Raise e | None => Ok tt end).

Definition create_db (db : option database)
  : database * list db_op * result unit :=
  DBConnect db (fun conn => executescript conn SQL_TABLE).

Definition key_taken (c : connection) (k : Z) : bool :=
  bool_decide (k ∈ spot_id <$> (rows (c_db c) ++ c_pending c)).

(** One execution of [INSERT]: the number of bindings is checked, then
    the row id is read and must be new. *)
Definition insert_row (c : connection) (r : record) : result connection :=
  if negb (length r =? INSERT_bindings)%nat then Raise ProgrammingError
  else
    match r !! 0%nat ≫= sqlite_rowid with
    | None => Raise IntegrityError
    | Some k =>
        if key_taken c k then Raise IntegrityError
        else Ok (Connection (c_db c) (c_pending c ++ [Row k r]) (c_trace c))
    end.

(** The rows of a failed [executemany] that were inserted before the
    failing one stay in the transaction. *)
Fixpoint insert_rows (c : connection) (bulk : list record)
  : connection * option exn :=
  match bulk with
  | [] => (c, None)
  | r :: rest =>
      match insert_row c r with
      | Ok c' => insert_rows c' rest
      | Raise e => (c, Some e)
      end
  end.

(** [cursor.executemany(INSERT, bulk)]: no commit is made. *)
Definition executemany (c : connection) (bulk : list record)
  : connection * option exn :=
  if decide ("wspr" ∈ tables (c_db c)) then
    let (c', err) := insert_rows c bulk in
    (traced (OpExecutemany bulk err) c', err)
  else (traced (OpExecutemany bulk (Some OperationalError)) c,
        Some OperationalError).

Definition max_Z (l : list Z) : option Z :=
  match l with
  | [] => None
  | x :: l' => Some (foldr Z.max x l')
  end.

(** [SELECT MAX(spot_id) AS last_id FROM wspr], then [fetchone()]. *)
Definition select_max (c : connection) : connection * result (option Z) :=
  if decide ("wspr" ∈ tables (c_db c)) then
    (traced OpSelectMax c,
     Ok (max_Z (spot_id <$> (rows (c_db c) ++ c_pending c))))
  else (traced OpSelectMax c, Raise OperationalError).

(** The watermark [main] computes from a database with the table. *)
Definition watermark (db : database) : Z :=
  default 0 (max_Z (spot_id <$> rows db)).

(** ** The world a run acts on *)

(** The date, the network (what [urlopen] gives for a URL), the
    successive readings of [time.time()] in milliseconds, the files, the
    database file [DB_NAME] ([None] when it does not exist), and what the
    run leaves behind: the calls made on connections and the log. *)
Record world := World {
  w_today : datetime;
  w_net : string -> urlopen_result;
  w_clock : list Z;
  w_files : gmap string (list Byte.byte);
  w_db : option database;
  w_dbtrace : list db_op;
  w_log : list (level * msg)
}.

Definition logging (l : level) (m : msg) (w : world) : world :=
  World (w_today w) (w_net w) (w_clock w) (w_files w) (w_db w) (w_dbtrace w)
    (w_log w ++ [(l, m)]).

Definition write_file (path : string) (content : list Byte.byte) (w : world)
  : world :=
  World (w_today w) (w_net w) (w_clock w) (<[path := content]> (w_files w))
    (w_db w) (w_dbtrace w) (w_log w).

Definition set_db (r : database * list db_op) (w : world) : world :=
  World (w_today w) (w_net w) (w_clock w) (w_files w) (Some r.1)
    (w_dbtrace w ++ r.2) (w_log w).

(** [time.time()]. *)
Definition time_time (w : world) : Z * world :=
  match w_clock w with
  | [] => (0, w)
  | t :: ts =>
      (t, World (w_today w) (w_net w) ts (w_files w) (w_db w) (w_dbtrace w)
            (w_log w))
  end.

(** [os.path.exists(filename)] for a file other than the database. *)
Definition path_exists (filename : string) (w : world) : bool :=
  bool_decide (is_Some (w_files w !! filename)).

(** ** The timer *)

(** [Timer.__exit__]: the message has the rate only when [nb_lines] is
    not zero. The elapsed time is a number of milliseconds. *)
Definition Timer_exit (title : string) (nb_lines : Z) (start : Z) (w : world)
  : world * option exn :=
  let (now, w) := time_time w in
  let elapsed := now - start in
  let milliseconds := elapsed mod 1000 in
  let minute := Z.quot elapsed 1000 / 60 in
  let sec := Z.quot elapsed 1000 mod 60 in
  let hour := minute / 60 in
  let minute := minute mod 60 in
  let hour_part := if hour =? 0 then None else Some hour in
  let minute_part := if minute =? 0 then None else Some minute in
  if nb_lines =? 0 then
    (logging INFO (MsgTimer title hour_part minute_part sec milliseconds None) w,
     None)
  else if elapsed =? 0 then (w, Some ZeroDivisionError)
  else
    (logging INFO
       (MsgTimer title hour_part minute_part sec milliseconds
          (Some (nb_lines, elapsed))) w,
     None).

(** [with Timer(title, nb_lines): body]. An exception of [__exit__]
    replaces the one of the body. *)
Definition Timer {A : Type} (title : string) (nb_lines : Z)
    (body : world -> option (world * result A)) (w : world)
  : option (world * result A) :=
  let (start, w) := time_time w in
  '(w, r) ← body w;
  let (w, err) := Timer_exit title nb_lines start w in
  Some (w, match err with Some e => Raise e | None => r end).

(** ** The archive fetcher *)

Definition get_size (filename : string) (w : world) : Z :=
  match w_files w !! filename with
  | None => 0
  | Some content => Z.of_nat (length content)
  end.

(** The loop over [iter(partial(resp.read, BUF_SIZE), b'')]: what has
    been written when it stops, and the exception if a read raised. *)
Fixpoint copy_body (reads : list read_result) (written : list Byte.byte)
  : list Byte.byte * option exn :=
  match reads with
  | [] => (written, None)
  | Chunk [] :: _ => (written, None)
  | Chunk buffer :: rest => copy_body rest (written ++ buffer)
  | ReadRaises e :: _ => (written, Some e)
  end.

(** The [except URLError] clause. *)
Definition except_URLError (e : exn) (w : world)
  : world * result (option string) :=
  if is_URLError e then (logging INFO (MsgHTTPError e) w, Ok None)
  else (w, Raise e).

Definition target_month (month : option Z) (today : datetime) : Z :=
  match month with
  | Some m => if m =? 0 then dt_month today else m
  | None => dt_month today
  end.

Definition target_file (month : option Z) (today : datetime) : string :=
  WSPR_FILE_format (dt_year today) (target_month month today).

Definition download_archive (path : string) (month : option Z) (force : bool)
    (w : world) : world * result (option string) :=
  let today := w_today w in
  let target_file := target_file month today in
  let target_path := path_join path target_file in
  let url := urljoin WSPR_ARCHIVE target_file in
  let download reads :=
    let w := logging INFO (MsgDownloading url) w in
    let (content, err) := copy_body reads [] in
    let w := write_file target_path content w in
    match err with
    | Some e => except_URLError e w
    | None => (w, Ok (Some target_path))
    end in
  match w_net w url with
  | UrlRaises e => except_URLError e w
  | UrlResponse length reads =>
      if force then download reads
      else
        match length with
        | None => except_URLError TypeError w
        | Some length =>
            if length <=? get_size target_path w then
              (logging INFO (MsgNoNewData url) w, Ok None)
            else download reads
        end
  end.

(** ** The ingestion coordinator *)

Inductive fill_result : Type :=
| Filled (bulk : list record) (wspot : gen)
| Exhausted (bulk : list record)
| FillRaised (e : exn).

(** [for _ in range(n): bulk.append(wspot.__next__())]. *)
Fixpoint fill_bulk (n : nat) (wspot : gen) (bulk : list record) : fill_result :=
  match n with
  | O => Filled bulk wspot
  | S n' =>
      match gen_next wspot with
      | Yield r wspot' => fill_bulk n' wspot' (bulk ++ [r])
      | StopIteration => Exhausted bulk
      | NextRaise e => FillRaised e
      end
  end.

(** The [try] statement of [wspr_import]: the [while True] loop and the
    [except StopIteration] clause. [fuel] bounds the number of rounds of
    the loop; [None] means it ran out. *)
Fixpoint import_loop (fuel : nat) (bulk_length : nat) (wspot : gen)
    (c : connection) (counter : Z) : option (connection * result Z) :=
  match fuel with
  | O => None
  | S fuel' =>
      match fill_bulk bulk_length wspot [] with
      | Filled bulk wspot' =>
          match executemany c bulk with
          | (c', None) =>
              import_loop fuel' bulk_length wspot' c'
                (counter + Z.of_nat (length bulk))
          | (c', Some e) => Some (c', Raise e)
          end
      | Exhausted [] => Some (c, Ok counter)
      | Exhausted bulk =>
          match executemany c bulk with
          | (c', None) => Some (c', Ok (counter + Z.of_nat (length bulk)))
          | (c', Some e) => Some (c', Raise e)
          end
      | FillRaised e => Some (c, Raise e)
      end
  end.

(** The [with DBConnect(db_name) as conn] statement of [wspr_import] on a
    generator: each round of the loop reads at least one line, so one
    round more than there are lines is enough. *)
Definition import_records (bulk_length : nat) (db : option database)
    (wspot : gen) : option (database * list db_op * result Z) :=
  '(c, r) ← import_loop (S (length (g_lines wspot))) bulk_length wspot
             (connect db) 0;
  Some (DBConnect_exit c, r).

(** Opening a file that is missing raises. *)
Definition open_archive (filename : string) (w : world) : archive :=
  match w_files w !! filename with
  | Some content => gzip_open content
  | None => Archive [] (Some OSError)
  end.

Definition wspr_import (filename : string) (start_id : Z) (w : world)
  : option (world * result unit) :=
  let wspot := read_spots (open_archive filename w) start_id in
  '(db, r) ← import_records BULK_LENGTH (w_db w) wspot;
  let w := set_db db w in
  match r with
  | Ok counter => Some (logging INFO (MsgRecordsProcessed counter) w, Ok tt)
  | Raise e => Some (w, Raise e)
  end.

(** The part of [main] that finds the watermark: a database file that
    does not exist is created and the watermark is 0. *)
Definition last_id_of (w : world) : world * result Z :=
  match w_db w with
  | None =>
      let '(db, r) := create_db None in
      (set_db db w, match r with Ok _ => Ok 0 | Raise e => Raise e end)
  | Some _ =>
      let w := logging INFO MsgCountingRecords w in
      let '(db, r) := DBConnect (w_db w) select_max in
      let w := set_db db w in
      match r with
      | Ok result =>
          let last_id := default 0 result in
          (logging INFO (MsgLastId last_id) w, Ok last_id)
      | Raise e => (w, Raise e)
      end
  end.

(** A Python string is true when it is not empty. *)
Definition truthy (s : option string) : bool :=
  match s with
  | None | Some EmptyString => false
  | Some _ => true
  end.

(** [main], from [logging.info('Database: %s', DB_NAME)] to its end: the
    run on an archive that exists. *)
Definition main_import (filename : string) (w : world)
  : option (world * result unit) :=
  let w := logging INFO (MsgDatabase DB_NAME) w in
  match last_id_of w with
  | (w, Raise e) => Some (w, Raise e)
  | (w, Ok last_id) =>
      let w := logging INFO (MsgImporting filename) w in
      '(w, r) ← Timer "Import WSPR" 0 (wspr_import filename last_id) w;
      match r with
      | Raise e => Some (w, Raise e)
      | Ok _ => Some (logging INFO MsgCacheInfo w, Ok tt)
      end
  end.

Definition main (opts : options) (w : world) : option (world * result unit) :=
  '(w, filename) ←
    (if truthy (opt_filename opts) then Some (w, Ok (opt_filename opts))
     else Timer "Download archive" 0
            (fun w => Some (download_archive WSPR_PATH (opt_month opts)
                              (opt_force opts) w)) w);
  match filename with
  | Raise e => Some (w, Raise e)
  | Ok filename =>
      if negb (truthy filename) || negb (path_exists (default "" filename) w)
      then Some (logging WARNING MsgNothingToImport w, Ok tt)
      else main_import (default "" filename) w
  end.

End Pipeline.

Arguments record : clear implicits.
Arguments line_result : clear implicits.
Arguments next_result : clear implicits.
Arguments row : clear implicits.
Arguments database : clear implicits.
Arguments db_op : clear implicits.
Arguments connection : clear implicits.
Arguments world : clear implicits.
Arguments fill_result : clear implicits.

(** ** A concrete platform, to run the pipeline on examples *)

Module Demo.

Definition digit_of (c : ascii) : option Z :=
  let n := N_of_ascii c in
  if ((48 <=? n) && (n <=? 57))%N then Some (Z.of_N n - 48) else None.

Fixpoint digits_value (s : string) (acc : Z) : option Z :=
  match s with
  | EmptyString => Some acc
  | String c s' =>
      match digit_of c with
      | Some d => digits_value s' (10 * acc + d)
      | None => None
      end
  end.

(** [int] on the plain decimal texts: digits, after an optional minus
    sign. *)
Definition int_of_decimal (s : string) : option Z :=
  match s with
  | EmptyString => None
  | String "-" EmptyString => None
  | String "-" s' => Z.opp <$> digits_value s' 0
  | _ => digits_value s 0
  end.

(** A resolver that reads the first pair of letters of a locator, the
    20 by 10 degree field, and raises on anything else. *)
Definition field_latlon (g : field Z) : result (Z * Z) :=
  match g with
  | FStr (String a (String b _)) =>
      let x := Z.of_N (N_of_ascii a) - 65 in
      let y := Z.of_N (N_of_ascii b) - 65 in
      if (0 <=? x) && (x <? 18) && (0 <=? y) && (y <? 18)
      then Ok (10 * y - 90, 20 * x - 180)
      else Raise ValueError
  | FStr _ => Raise ValueError
  | FFloat _ => Raise TypeError
  end.

(** A decoder for archives stored as plain text: the lines, each with
    the newline that ends it. *)
Fixpoint text_lines (s : string) (cur : string) : list string :=
  match s with
  | EmptyString => match cur with EmptyString => [] | _ => [cur] end
  | String c s' =>
      if Ascii.eqb c "010" then (cur +:+ String c EmptyString) :: text_lines s' ""
      else text_lines s' (cur +:+ String c EmptyString)
  end.

Definition plain_open (content : list Byte.byte) : archive :=
  Archive (text_lines (string_of_list_byte content) "") None.

Definition rowid_of (f : field Z) : option Z :=
  match f with
  | FStr s => int_of_decimal s
  | FFloat _ => None
  end.

#[export] Instance platform : Platform Z := {|
  py_int := int_of_decimal;
  grid2latlon := field_latlon;
  gzip_open := plain_open;
  sqlite_rowid := rowid_of;
  DB_NAME := "wspr.db";
  WSPR_PATH := "/tmp"
|}.

(** A well-formed line of an archive, with its fifteen fields. *)
Definition spot_line (id : Z) : string :=
  PyStr.str_of_nonneg id
  +:+ ",1700000000,K1ABC,FN42,-20,14.097100,W6BSD,CM87,37,0,4100,270,14,2.0,0"
  +:+ String "010" EmptyString.

Definition spot_lines (first : Z) (n : nat) : list string :=
  spot_line <$> seqZ first (Z.of_nat n).

Definition file_of (lines : list string) : list Byte.byte :=
  list_byte_of_string (fold_right String.append "" lines).

(** A database with the schema of [SQL_TABLE] and no row. *)
Definition fresh_db : database Z := (create_db None).1.1.

Definition no_network (url : string) : urlopen_result := UrlRaises URLError.

Definition a_day : datetime := Datetime 2023 7.

Definition july_url : string :=
  "http://wsprnet.org/archive/wsprspots-2023-07.csv.gz".

(** An archive site with one file. *)
Definition site (resp : urlopen_result) (url : string) : urlopen_result :=
  if String.eqb url july_url then resp else UrlRaises HTTPError.

(** A world with no database yet. *)
Definition new_world (net : string -> urlopen_result)
    (files : gmap string (list Byte.byte)) : world Z :=
  World a_day net [0; 1500; 2000; 9000] files None [] [].

(** Three spots in [a.gz], one older run's archive in [b.gz]. *)
Definition two_archives : gmap string (list Byte.byte) :=
  {[ "a.gz" := file_of (spot_lines 10 3); "b.gz" := file_of (spot_lines 100 1) ]}.

End Demo.

(** ** The configuration object of [config.py] *)

Module Config.

(** What [yaml.safe_load] gives for a configuration file: nothing for an
    empty document, or a mapping from keys to values. Documents of other
    kinds are not modelled. *)
Inductive document (V : Type) : Type :=
| DocNone
| DocMap (m : gmap string V).
Arguments DocNone {V}.
Arguments DocMap {V} m.

(** What ends a call on the configuration: [KeyError], the [TypeError]
    of [key not in None], [SystemExit] with its status, or an exception
    [_read_config] raised that is not a [ValueError]. *)
Inductive failure : Type :=
| KeyError
| NoneNotIterable
| SystemExit (status : Z)
| Uncaught (e : exn).

Inductive outcome (A : Type) : Type :=
| Done (a : A)
| Failed (f : failure).
Arguments Done {A} a.
Arguments Failed {A} f.

(** What [config.attr] evaluates to: the object itself for [_instance],
    its [config_data], its logger, the function [_read_config], or a
    value of the mapping. *)
Inductive member (V : Type) : Type :=
| TheInstance
| TheData (d : document V)
| TheLogger
| TheReader
| Value (v : V).
Arguments TheInstance {V}.
Arguments TheData {V} d.
Arguments TheLogger {V}.
Arguments TheReader {V}.
Arguments Value {V} v.

(** The messages of the logger ['Config']. *)
Inductive log_entry : Type :=
| DebugReading (filename : string)
| ErrorConfiguration (e : exn)
| ErrorNotFound (name : string).

(** What [config.py] takes from outside: [os.path.expanduser] and
    [_read_config] as a function of the content of the file. *)
Class Env (V : Type) := {
  expanduser : string -> string;
  read_config : list Byte.byte -> result (document V)
}.

Definition CONFIG_FILENAME : string := "wsprstats.yaml".
Definition CONFIG_LOCATIONS : list string := ["/etc"; "~/.local"; "."].

(** [os.EX_CONFIG]. *)
Definition EX_CONFIG : Z := 78.

Section Model.

Context {V : Type} `{!Env V}.

(** The class attribute [_instance]: no object yet, or the object with
    its [config_data]. *)
Definition instance : Type := option (document V).

(** [bool(config_data)]: a mapping is true when it is not empty. *)
Definition loaded (d : document V) : bool :=
  match d with
  | DocNone => false
  | DocMap m => negb (bool_decide (m = ∅))
  end.

(** [__new__]: the object is made once, with an empty mapping. *)
Definition new (inst : instance) : document V :=
  match inst with
  | None => DocMap ∅
  | Some d => d
  end.

(** The loop of [__init__] over the locations, and what follows it. *)
Fixpoint read_first (files : gmap string (list Byte.byte))
    (locations : list string) (d : document V)
  : document V * list log_entry * outcome unit :=
  match locations with
  | [] => (d, [ErrorNotFound CONFIG_FILENAME], Failed (SystemExit EX_CONFIG))
  | path :: rest =>
      let filename := expanduser (path_join path CONFIG_FILENAME) in
      match files !! filename with
      | Some content =>
          match read_config content with
          | Ok d' => (d', [DebugReading filename], Done tt)
          | Raise ValueError =>
              (d, [DebugReading filename; ErrorConfiguration ValueError],
               Failed (SystemExit EX_CONFIG))
          | Raise e => (d, [DebugReading filename], Failed (Uncaught e))
          end
      | None => read_first files rest d
      end
  end.

(** [__init__]; the argument [config_filename] is not read. *)
Definition init (config_filename : option string)
    (files : gmap string (list Byte.byte)) (d : document V)
  : document V * list log_entry * outcome unit :=
  if loaded d then (d, [], Done tt)
  else read_first files CONFIG_LOCATIONS d.

(** The call [Config(config_filename)]: [__new__], then [__init__] on
    the object. The object stays in [_instance] when [__init__] fails. *)
Definition Config (config_filename : option string)
    (files : gmap string (list Byte.byte)) (inst : instance)
  : instance * list log_entry * outcome (document V) :=
  let '(d, log, r) := init config_filename files (new inst) in
  (Some d, log, match r with Done _ => Done d | Failed f => Failed f end).

(** [config[key]]. *)
Definition getitem (d : document V) (key : string) : outcome V :=
  match d with
  | DocNone => Failed NoneNotIterable
  | DocMap m =>
      match m !! key with
      | None => Failed KeyError
      | Some v => Done v
      end
  end.

(** [__getattr__(attr)]. Python calls it for [config.attr] only when the
    normal lookup finds no attribute named [attr]. *)
Definition getattr (d : document V) (attr : string) : outcome V :=
  getitem d attr.

(** The names the normal lookup finds on the object a call of [Config]
    returns, among the names that do not start with two underscores:
    the attributes of the class body and the one [__init__] sets. *)
Definition attributes : list string :=
  ["_instance"; "config_data"; "log"; "_read_config"].

(** A name that starts with two underscores. The normal lookup finds
    those of [object] and of the class; they are left out of
    [get_attribute]. *)
Definition dunder (attr : string) : bool :=
  match attr with
  | String "_" (String "_" _) => true
  | _ => false
  end.

(** [config.attr] for a name that does not start with two underscores:
    the attribute the normal lookup finds, or else what [__getattr__]
    gives. *)
Definition get_attribute (d : document V) (attr : string)
  : outcome (member V) :=
  if String.eqb attr "_instance" then Done TheInstance
  else if String.eqb attr "config_data" then Done (TheData d)
  else if String.eqb attr "log" then Done TheLogger
  else if String.eqb attr "_read_config" then Done TheReader
  else match getattr d attr with
       | Done v => Done (Value v)
       | Failed f => Failed f
       end.

End Model.

End Config.

(** ** Reading the store in [heat.py] *)

Module Heat.

(** What [load_data] and [purge_oldfiles] take from outside, for
    datetimes of type [T]: SQLite's comparisons [time >= ?] and
    [time < ?] of a stored value with the timestamp of a datetime,
    [datetime.strptime(s, FILE_DATE_FORMAT)] ([None] is [ValueError]) and
    the order [<] of datetimes. The query of [load_data] has no
    [ORDER BY]: the order in which SQLite returns the rows it selects
    from a database is its own choice, of which only this is known, that
    it returns each selected row once. *)
Class Env (Coord T : Type) := {
  time_ge : field Coord -> T -> bool;
  time_lt : field Coord -> T -> bool;
  strptime : string -> option T;
  date_lt : T -> T -> bool;
  query_order : database Coord -> list (row Coord) -> list (row Coord);
  query_order_perm : forall db rs, Permutation (query_order db rs) rs
}.

Section Model.

Context {Coord T : Type} `{!Env Coord T}.

(** A column of a row by its position in the table; [None] is NULL. *)
Definition column (i : nat) (r : row Coord) : option (field Coord) :=
  columns r !! i.

(** [WHERE time >= ? and time < ?]; [time] is column 1. *)
Definition selected (start end_ : T) (r : row Coord) : bool :=
  match column 1 r with
  | Some t => time_ge t start && time_lt t end_
  | None => false
  end.

(** [SELECT rx_lat, tx_lon, tx_lat, tx_lon]: columns 17, 16, 15, 16. *)
Definition select_list (r : row Coord) : list (option (field Coord)) :=
  [column 17 r; column 16 r; column 15 r; column 16 r].

(** [curs.execute(sql_req, ...)] and the iteration over its result:
    the selected rows, in the order SQLite returns them. *)
Definition execute_select (start end_ : T) (c : connection Coord)
  : connection Coord * result (list (list (option (field Coord)))) :=
  if decide ("wspr" ∈ tables (c_db c)) then
    (c, Ok (select_list
            <$> query_order (c_db c)
                  (List.filter (selected start end_)
                     (rows (c_db c) ++ c_pending c))))
  else (c, Raise OperationalError).

(** [fields[2:4]]. *)
Definition slice_2_4 {A : Type} (fields : list A) : list A :=
  take 2 (drop 2 fields).

(** [load_data], on the database file [db_name] names: the list [data]
    that is handed to [np.array]. The debug message is left out. *)
Definition load_data (odb : option (database Coord)) (start end_ : T)
  : database Coord * list (db_op Coord)
    * result (list (list (option (field Coord)))) :=
  DBConnect odb (fun conn =>
    match execute_select start end_ conn with
    | (conn, Ok result) => (conn, Ok (slice_2_4 <$> result))
    | (conn, Raise e) => (conn, Raise e)
    end).

(** *** [purge_oldfiles] *)

Definition is_digit (c : ascii) : bool :=
  let n := N_of_ascii c in ((48 <=? n) && (n <=? 57))%N.

(** The longest run of digits at the head of a string, and what
    follows it. *)
Fixpoint span_digits (s : string) : string * string :=
  match s with
  | String c s' =>
      if is_digit c then let (ds, rest) := span_digits s' in (String c ds, rest)
      else (EmptyString, s)
  | EmptyString => (EmptyString, EmptyString)
  end.

Fixpoint strip_prefix (p s : string) : option string :=
  match p, s with
  | EmptyString, _ => Some s
  | String a p', String b s' =>
      if Ascii.eqb a b then strip_prefix p' s' else None
  | String _ _, EmptyString => None
  end.

(** All but the last character. *)
Fixpoint drop_last (s : string) : string :=
  match s with
  | EmptyString | String _ EmptyString => EmptyString
  | String c s' => String c (drop_last s')
  end.

(** [re.compile(r'world-(\d+).png').match(filename)], as group 1 of the
    match. The digits are taken greedily: all of them when one
    character that is not a newline and then [png] follow; all but the
    last, which the dot then takes, when [png] follows the digits at
    once and there are two digits at least. The name need not end
    after [png]. *)
Definition get_date (filename : string) : option string :=
  match strip_prefix "world-" filename with
  | None => None
  | Some s =>
      let (ds, rest) := span_digits s in
      match ds with
      | EmptyString => None
      | _ =>
          match rest with
          | String c after =>
              if negb (Ascii.eqb c "010") && bool_decide (is_Some (strip_prefix "png" after))
              then Some ds
              else
                match strip_prefix "png" rest, drop_last ds with
                | Some _, String d ds' => Some (String d ds')
                | _, _ => None
                end
          | EmptyString => None
          end
      end
  end.



End Model.

End Heat.

(** ** A concrete environment for [config.py] and [heat.py] *)

Module Samples.

Import Demo.

(** [expanduser] for a user whose home is [/home/op]. *)
Definition expand_home (p : string) : string :=
  match p with
  | String "~" rest => "/home/op" +:+ rest
  | _ => p
  end.

(** The part of a text before its first colon followed by a space, and
    the part after them. *)
Fixpoint key_value (s : string) : option (string * string) :=
  match s with
  | EmptyString => None
  | String ":" (String " " v) => Some (EmptyString, v)
  | String c s' =>
      match key_value s' with
      | Some (k, v) => Some (String c k, v)
      | None => None
      end
  end.

(** A reader for the files of the examples, which are empty or hold one
    line [key: value] of plain text: the documents [yaml.safe_load]
    gives for them. It refuses any other file with a [ValueError]. *)
Definition one_pair (content : list Byte.byte) : result (Config.document string) :=
  match string_of_list_byte content with
  | EmptyString => Ok Config.DocNone
  | s =>
      match key_value s with
      | Some (String c k, v) => Ok (Config.DocMap {[ String c k := v ]})
      | _ => Raise ValueError
      end
  end.

#[export] Instance config_env : Config.Env string := {|
  Config.expanduser := expand_home;
  Config.read_config := one_pair
|}.

(** The file of the second location, for the user of [expand_home]. *)
Definition home_config : gmap string (list Byte.byte) :=
  {[ "/home/op/.local/wsprstats.yaml" := list_byte_of_string "db_name: /var/wspr.db" ]}.

(** An empty file in the first location. *)
Definition empty_config : gmap string (list Byte.byte) :=
  {[ "/etc/wsprstats.yaml" := [] ]}.

(** Datetimes as integers: a timestamp for the columns, the number the
    twelve digits of [%Y%m%d%H%M] write for the file names. *)
Definition stored_time (f : field Z) : option Z :=
  match f with
  | FStr s => int_of_decimal s
  | FFloat _ => None
  end.

Definition twelve_digits (s : string) : option Z :=
  if (String.length s =? 12)%nat then digits_value s 0 else None.

(** The rows are returned in the order of the store. *)
#[export] Instance heat_env : Heat.Env Z Z := {|
  Heat.time_ge f t := match stored_time f with Some x => t <=? x | None => false end;
  Heat.time_lt f t := match stored_time f with Some x => x <? t | None => false end;
  Heat.strptime := twelve_digits;
  Heat.date_lt := Z.ltb;
  Heat.query_order _ rs := rs;
  Heat.query_order_perm _ rs := Permutation_refl rs
|}.

(** The database after the import of three spots. *)
Definition spots_db : database Z :=
  match import_records BULK_LENGTH (Some fresh_db)
          (read_spots (Archive (spot_lines 10 3) None) 0) with
  | Some (db, _, _) => db
  | None => fresh_db
  end.

(** A world whose database file exists and is empty. *)
Definition empty_db_world : world Z :=
  World a_day no_network [0; 1500; 2000; 9000] two_archives
    (Some empty_database) [] [].

End Samples.

(** * Properties *)

Section Reader.

Context {Coord : Type} `{!Platform Coord}.

Implicit Types (r : record Coord) (g : gen) (a : archive) (line : string).

(** The fields of a line, as [read_spots] splits it. *)
Definition line_fields (line : string) : list (field Coord) :=
  FStr <$> PyStr.split "," (PyStr.rstrip line).

(** A line [read_spots] yields a record for: its id is above the
    watermark. *)
Definition above (start_id : Z) (line : string) : bool :=
  match line_id line with
  | Some id => start_id <? id
  | None => false
  end.

Lemma split_nonempty sep s : PyStr.split sep s ≠ [].
Proof.
  destruct s as [|c s]; simpl; [done|].
  destruct (Ascii.eqb c sep); [done|].
  by destruct (PyStr.split sep s).
Qed.

Lemma read_line_Emit start_id line r :
  read_line start_id line = Emit r →
  ∃ id tx rx tx_lat tx_lon rx_lat rx_lon,
    line_id line = Some id ∧ start_id < id ∧
    line_fields line !! 3%nat = Some tx ∧
    grid2latlon tx = Ok (tx_lat, tx_lon) ∧
    (line_fields line ++ [FFloat tx_lat; FFloat tx_lon]) !! 7%nat = Some rx ∧
    grid2latlon rx = Ok (rx_lat, rx_lon) ∧
    r = line_fields line
          ++ [FFloat tx_lat; FFloat tx_lon; FFloat rx_lat; FFloat rx_lon].
Proof.
  unfold read_line, line_id, line_fields, record.
  set (fs := PyStr.split "," (PyStr.rstrip line)).
  destruct (fs !! 0%nat) as [f0|]; [|done]. cbn [mbind option_bind].
  destruct (py_int f0) as [id|]; [|done].
  destruct (id <=? start_id) eqn:Hle; [done|].
  apply Z.leb_gt in Hle.
  destruct ((FStr <$> fs) !! 3%nat) as [tx|] eqn:Htx; [|done].
  destruct (grid2latlon tx) as [[tx_lat tx_lon]|] eqn:Hg1; [|done].
  destruct (((FStr <$> fs) ++ [FFloat tx_lat; FFloat tx_lon]) !! 7%nat)
    as [rx|] eqn:Hrx; [|done].
  destruct (grid2latlon rx) as [[rx_lat rx_lon]|] eqn:Hg2; [|done].
  intros [= <-].
  exists id, tx, rx, tx_lat, tx_lon, rx_lat, rx_lon.
  repeat split; try done.
  by rewrite <- app_assoc.
Qed.

Lemma read_line_Skip start_id line :
  read_line start_id line = Skip →
  ∃ id, line_id line = Some id ∧ id <= start_id.
Proof.
  unfold read_line, line_id.
  set (fs := PyStr.split "," (PyStr.rstrip line)).
  destruct (fs !! 0%nat) as [f0|]; [|done]. cbn [mbind option_bind].
  destruct (py_int f0) as [id|]; [|done].
  destruct (id <=? start_id) eqn:Hle.
  - intros _. exists id. split; [done|]. by apply Z.leb_le.
  - repeat case_match; done.
Qed.

Lemma read_line_not_above start_id line :
  above start_id line = false →
  is_Some (line_id line) → read_line start_id line = Skip.
Proof.
  unfold above, read_line, line_id.
  set (fs := PyStr.split "," (PyStr.rstrip line)).
  destruct (fs !! 0%nat) as [f0|]; cbn [mbind option_bind];
    [|by intros _ [??]].
  destruct (py_int f0) as [id|]; [|by intros _ [??]].
  intros Hab%Z.ltb_ge _. by rewrite (proj2 (Z.leb_le _ _) Hab).
Qed.

Lemma record_id_Emit start_id line r :
  read_line start_id line = Emit r → record_id r = line_id line.
Proof.
  intros (id & tx & rx & ? & ? & ? & ? & Hid & _ & _ & _ & _ & _ & ->)%read_line_Emit.
  unfold line_fields, line_id in *.
  by destruct (PyStr.split "," (PyStr.rstrip line)) as [|f0 fs].
Qed.

Lemma above_Emit start_id line r :
  read_line start_id line = Emit r → above start_id line = true.
Proof.
  intros (id & tx & rx & ? & ? & ? & ? & Hid & ? & _)%read_line_Emit.
  unfold above. rewrite Hid. by apply Z.ltb_lt.
Qed.

Lemma above_Skip start_id line :
  read_line start_id line = Skip → above start_id line = false.
Proof.
  intros (id & Hid & ?)%read_line_Skip.
  unfold above. rewrite Hid. by apply Z.ltb_ge.
Qed.

(** [drain] is the sequence of the results of [gen_next]. *)
Lemma gen_next_drain g :
  match gen_next g with
  | Yield r g' =>
      drain g = (r :: (drain g').1, (drain g').2) ∧
      g_start g' = g_start g ∧
      (length (g_lines g') < length (g_lines g))%nat
  | StopIteration => drain g = ([], None)
  | NextRaise e => drain g = ([], Some e)
  end.
Proof.
  destruct g as [start_id lines err]. unfold gen_next, drain. simpl.
  induction lines as [|line rest IH]; simpl.
  - by destruct err.
  - destruct (read_line start_id line) eqn:Hl; simpl.
    + destruct (next_lines start_id err rest); [|done..].
      destruct IH as (-> & ? & ?). repeat split; [done|lia].
    + destruct (drain_lines start_id err rest). repeat split; simpl; lia.
    + done.
Qed.

Lemma drain_lines_spec start_id err lines :
  ∃ consumed rest,
    lines = consumed ++ rest ∧
    Forall2 (λ line r, read_line start_id line = Emit r)
      (List.filter (above start_id) consumed)
      (drain_lines start_id err lines).1 ∧
    Forall (λ line, ∀ e, read_line start_id line ≠ Fail e) consumed ∧
    match rest with
    | [] => (drain_lines start_id err lines).2 = err
    | line :: _ =>
        ∃ e, read_line start_id line = Fail e ∧
             (drain_lines start_id err lines).2 = Some e
    end.
Proof.
  induction lines as [|line lines (consumed & rest & -> & Hrecs & Hok & Hend)];
    simpl.
  - exists [], []. repeat split; constructor.
  - destruct (read_line start_id line) as [|r|e] eqn:Hl.
    + exists (line :: consumed), rest. simpl.
      rewrite (above_Skip _ _ Hl). repeat split; try done.
      constructor; [congruence|done].
    + exists (line :: consumed), rest. simpl.
      rewrite (above_Emit _ _ _ Hl).
      destruct (drain_lines start_id err (consumed ++ rest)) as [rs e'].
      repeat split; try done.
      * by constructor.
      * constructor; [congruence|done].
    + exists [], (line :: consumed ++ rest). simpl.
      repeat split; try constructor. by exists e.
Qed.

Lemma drain_Emit a start_id r :
  In r (drain (read_spots a start_id)).1 →
  ∃ line, In line (a_lines a) ∧ read_line start_id line = Emit r.
Proof.
  unfold drain, read_spots. simpl.
  destruct (drain_lines_spec start_id (a_error a) (a_lines a))
    as (consumed & rest & -> & Hrecs & _).
  revert Hrecs. generalize (drain_lines start_id (a_error a) (consumed ++ rest)).1.
  intros recs Hrecs Hin.
  assert (∃ line, In line (List.filter (above start_id) consumed)
                  ∧ read_line start_id line = Emit r) as (line & Hline & ?).
  { induction Hrecs as [|l r' ls rs' Hlr _ IH]; [done|].
    destruct Hin as [->|Hin].
    - exists l. split; [by left|done].
    - destruct (IH Hin) as (l' & ? & ?). exists l'. split; [by right|done]. }
  exists line. split; [|done].
  apply in_or_app. left. by apply filter_In in Hline as [? _].
Qed.

End Reader.

Section Coordinator.

Context {Coord : Type} `{!Platform Coord}.

Implicit Types (r : record Coord) (g : gen) (c : connection Coord)
  (bulk recs : list (record Coord)) (db : database Coord) (e : option exn).

(** The batches [wspr_import] hands to [executemany] when the reader
    yields [recs] and ends with [e]: the full ones, then what is left,
    unless nothing is left or the reader raised. *)
Definition batches (B : nat) recs e : list (list (record Coord)) :=
  let q := (length recs / B)%nat in
  ((λ i, take B (drop (i * B) recs)) <$> seq 0 q) ++
  match e, drop (q * B) recs with
  | None, _ :: _ => [drop (q * B) recs]
  | _, _ => []
  end.

(** The loop of [wspr_import] on batches that are already cut. *)
Fixpoint run_batches c (bs : list (list (record Coord))) e (counter : Z)
  : connection Coord * result Z :=
  match bs with
  | [] => (c, match e with None => Ok counter | Some ex => Raise ex end)
  | b :: bs' =>
      match executemany c b with
      | (c', None) => run_batches c' bs' e (counter + Z.of_nat (length b))
      | (c', Some ex) => (c', Raise ex)
      end
  end.

(** A row as [INSERT] stores it: nineteen values, and the row id is the
    one SQLite reads in the first. *)
Definition keyed (row : row Coord) : Prop :=
  length (columns row) = INSERT_bindings ∧
  columns row !! 0%nat ≫= sqlite_rowid = Some (spot_id row).

Lemma fill_bulk_spec n g bulk :
  match fill_bulk n g bulk with
  | Filled b g' =>
      (n ≤ length (drain g).1)%nat ∧ b = bulk ++ take n (drain g).1 ∧
      drain g' = (drop n (drain g).1, (drain g).2) ∧
      (length (g_lines g') + n ≤ length (g_lines g))%nat
  | Exhausted b =>
      (length (drain g).1 < n)%nat ∧ (drain g).2 = None ∧
      b = bulk ++ (drain g).1
  | FillRaised ex =>
      (length (drain g).1 < n)%nat ∧ (drain g).2 = Some ex
  end.
Proof.
  revert g bulk. induction n as [|n IH]; intros g bulk; simpl.
  - rewrite take_0, drop_0, app_nil_r. repeat split; try lia. by destruct (drain g).
  - pose proof (gen_next_drain g) as Hnext.
    destruct (gen_next g) as [r g'| |ex].
    + destruct Hnext as (Hd & _ & Hlen). specialize (IH g' (bulk ++ [r])).
      rewrite Hd. simpl.
      destruct (fill_bulk n g' (bulk ++ [r])) as [b g''| b | ex].
      * destruct IH as (? & -> & -> & ?). rewrite <- app_assoc.
        repeat split; try done; lia.
      * destruct IH as (? & ? & ->). rewrite <- app_assoc.
        repeat split; try done; lia.
      * destruct IH as (? & ?). split; [lia|done].
    + rewrite Hnext. simpl. repeat split; try lia. by rewrite app_nil_r.
    + rewrite Hnext. simpl. split; [lia|done].
Qed.

Lemma batches_step B recs e :
  (0 < B)%nat → (B ≤ length recs)%nat →
  batches B recs e = take B recs :: batches B (drop B recs) e.
Proof.
  intros HB Hlen. unfold batches. rewrite length_drop.
  assert (length recs / B = S ((length recs - B) / B))%nat as ->.
  { replace (length recs) with ((length recs - B) + 1 * B)%nat at 1 by lia.
    rewrite Nat.div_add by lia. lia. }
  set (q := ((length recs - B) / B)%nat).
  cbn [seq fmap list_fmap]. rewrite drop_0. simpl app. f_equal.
  rewrite <- fmap_S_seq, <- list_fmap_compose.
  f_equal.
  - apply list_fmap_ext. intros _ i _. simpl. by rewrite drop_drop.
  - rewrite drop_drop. replace (B + q * B)%nat with (S q * B)%nat by lia. done.
Qed.

Lemma batches_last B recs e :
  (length recs < B)%nat →
  batches B recs e = match e, recs with
                     | None, _ :: _ => [recs]
                     | _, _ => []
                     end.
Proof.
  intros Hlen. unfold batches. rewrite Nat.div_small by done.
  simpl. by rewrite drop_0.
Qed.

(** The loop on the generator does what [run_batches] does on the
    batches of the records read, and does not run out of fuel. *)
Lemma import_loop_spec fuel B g c counter :
  (0 < B)%nat → (length (g_lines g) < fuel)%nat →
  import_loop fuel B g c counter =
  Some (run_batches c (batches B (drain g).1 (drain g).2) (drain g).2 counter).
Proof.
  intros HB. revert g c counter.
  induction fuel as [|fuel IH]; intros g c counter Hfuel; [lia|].
  simpl. pose proof (fill_bulk_spec B g []) as Hfill.
  destruct (fill_bulk B g []) as [b g'|b|ex].
  - destruct Hfill as (Hlen & -> & Hd & Hlines). simpl.
    rewrite (batches_step B _ _ HB Hlen). simpl.
    destruct (executemany c (take B (drain g).1)) as [c' [ex|]]; [done|].
    rewrite IH by lia. by rewrite Hd.
  - destruct Hfill as (Hlen & He & ->). simpl.
    rewrite (batches_last B _ _ Hlen), He.
    destruct (drain g).1 as [|r recs]; [done|]. simpl.
    by destruct (executemany c (r :: recs)) as [c' [ex|]].
  - destruct Hfill as (Hlen & He).
    by rewrite (batches_last B _ _ Hlen), He.
Qed.

Lemma insert_row_Ok c r c' :
  insert_row c r = Ok c' →
  ∃ k, keyed (Row k r) ∧ key_taken c k = false ∧
       c' = Connection (c_db c) (c_pending c ++ [Row k r]) (c_trace c).
Proof.
  unfold insert_row, keyed. simpl.
  destruct (length r =? INSERT_bindings)%nat eqn:Hlen; [|done]. simpl.
  apply Nat.eqb_eq in Hlen.
  destruct (r !! 0%nat ≫= sqlite_rowid) as [k|]; [|done].
  destruct (key_taken c k) eqn:Hk; [done|].
  intros [= <-]. by exists k.
Qed.

Lemma insert_rows_spec c bulk c' e :
  insert_rows c bulk = (c', e) →
  c_db c' = c_db c ∧ c_trace c' = c_trace c ∧
  ∃ rs, c_pending c' = c_pending c ++ rs ∧ Forall keyed rs ∧
        match e with
        | None => columns <$> rs = bulk
        | Some _ => ∃ r rest, bulk = (columns <$> rs) ++ r :: rest
        end.
Proof.
  revert c. induction bulk as [|r bulk IH]; intros c; simpl.
  - intros [= <- <-]. repeat split. exists []. by rewrite app_nil_r.
  - destruct (insert_row c r) as [c1|ex] eqn:Hr.
    + apply insert_row_Ok in Hr as (k & Hk & _ & ->).
      intros (Hdb & Htr & rs & Hp & Hrs & He)%IH. simpl in *.
      repeat split; [done..|].
      exists (Row k r :: rs). rewrite Hp, <- app_assoc. repeat split.
      * by constructor.
      * destruct e as [ex|]; simpl.
        -- destruct He as (r' & rest & ->). by exists r', rest.
        -- f_equal. exact He.
    + intros [= <- <-]. repeat split. exists []. rewrite app_nil_r.
      repeat split; [constructor|]. by exists r, bulk.
Qed.

Lemma executemany_spec c bulk c' e :
  executemany c bulk = (c', e) →
  c_db c' = c_db c ∧ c_trace c' = c_trace c ++ [OpExecutemany bulk e] ∧
  ∃ rs, c_pending c' = c_pending c ++ rs ∧ Forall keyed rs ∧
        match e with
        | None => columns <$> rs = bulk ∧ "wspr" ∈ tables (c_db c)
        | Some _ => ∃ rest, bulk = (columns <$> rs) ++ rest
        end.
Proof.
  unfold executemany. destruct (decide ("wspr" ∈ tables (c_db c))) as [Ht|Ht].
  - destruct (insert_rows c bulk) as [c1 e1] eqn:Hins.
    apply insert_rows_spec in Hins as (Hdb & Htr & rs & Hp & Hrs & He).
    intros [= <- <-]. simpl. rewrite Htr. repeat split; [done|].
    exists rs. repeat split; [done..|].
    destruct e1; [|done]. destruct He as (r & rest & ->). by eexists.
  - intros [= <- <-]. simpl. repeat split.
    exists []. rewrite app_nil_r. repeat split; [constructor|]. by exists bulk.
Qed.

(** What a run of the loop leaves on the connection: the batches written
    in full, then at most one call that failed. The records stored are
    the first records of the batches. *)
Lemma run_batches_spec c bs e counter c' res :
  run_batches c bs e counter = (c', res) →
  c_db c' = c_db c ∧
  ∃ (written : list (list (record Coord))) (failed : list (db_op Coord)) rs,
    c_trace c' =
      c_trace c ++ ((λ b, OpExecutemany b None) <$> written) ++ failed ∧
    c_pending c' = c_pending c ++ rs ∧ Forall keyed rs ∧
    (∃ part, columns <$> rs = concat written ++ part) ∧
    (∃ tail, concat bs = (columns <$> rs) ++ tail) ∧
    (written ≠ [] → "wspr" ∈ tables (c_db c)) ∧
    match res with
    | Ok n =>
        written = bs ∧ failed = [] ∧ e = None ∧
        columns <$> rs = concat bs ∧
        n = counter + Z.of_nat (length (concat bs))
    | Raise ex =>
        (written = bs ∧ failed = [] ∧ e = Some ex) ∨
        (∃ b rest, bs = written ++ b :: rest ∧
                   failed = [OpExecutemany b (Some ex)])
    end.
Proof.
  revert c counter. induction bs as [|b bs IH]; intros c counter; simpl.
  - intros [= <- <-]. split; [done|]. exists [], [], [].
    rewrite !app_nil_r. repeat split; try done; try constructor.
    + by exists [].
    + by exists [].
    + destruct e; [by left|]. repeat split; try done. simpl. lia.
  - destruct (executemany c b) as [c1 [ex|]] eqn:Hex.
    + apply executemany_spec in Hex as (Hdb & Htr & rs & Hp & Hrs & rest & Hb).
      intros [= <- <-]. split; [done|].
      exists [], [OpExecutemany b (Some ex)], rs. simpl.
      repeat split; try done.
      * by exists (columns <$> rs).
      * exists (rest ++ concat bs). by rewrite Hb, <- app_assoc.
      * right. by exists b, bs.
    + apply executemany_spec in Hex as (Hdb & Htr & rs & Hp & Hrs & Hb & Ht).
      intros (Hdb' & written & failed & rs' & Htr' & Hp' & Hrs' & (part & Hpart)
              & (tail & Htail) & Ht' & Hres)%IH.
      split; [congruence|].
      exists (b :: written), failed, (rs ++ rs').
      rewrite Htr', Htr, Hp', Hp, <- !app_assoc. simpl.
      repeat split; try done.
      * by apply Forall_app.
      * exists part. by rewrite fmap_app, Hb, Hpart, <- app_assoc.
      * exists tail. by rewrite fmap_app, Hb, Htail, <- app_assoc.
      * destruct res as [n|ex].
        -- destruct Hres as (-> & -> & -> & Hcols & ->).
           repeat split; try done.
           ++ by rewrite fmap_app, Hb, Hcols.
           ++ rewrite length_app. lia.
        -- destruct Hres as [(-> & -> & ->)|(b' & rest & -> & ->)].
           ++ by left.
           ++ right. by exists b', rest.
Qed.

Lemma concat_batches B recs e :
  (0 < B)%nat →
  ∃ tail, recs = concat (batches B recs e) ++ tail ∧ (e = None → tail = []).
Proof.
  intros HB. remember (length recs) as n eqn:Hn. revert recs Hn.
  induction (lt_wf n) as [n _ IH]. intros recs ->.
  destruct (decide (length recs < B)%nat) as [Hlt|Hge].
  - rewrite (batches_last _ _ _ Hlt). destruct e as [ex|].
    + by exists recs.
    + exists []. destruct recs; simpl; by rewrite ?app_nil_r.
  - rewrite batches_step by lia.
    destruct (IH (length (drop B recs))) with (recs := drop B recs)
      as (tail & Htail & He); [rewrite length_drop; lia|done|].
    exists tail. split; [|done]. simpl.
    rewrite <- app_assoc, <- Htail. by rewrite take_drop.
Qed.

Lemma batches_lookup B recs (i : nat) b :
  (0 < B)%nat → batches B recs None !! i = Some b →
  b = take B (drop (i * B) recs) ∧ (i * B < length recs)%nat.
Proof.
  intros HB. unfold batches.
  pose proof (Nat.div_mod_eq (length recs) B) as Hdm.
  pose proof (Nat.mod_upper_bound (length recs) B ltac:(lia)) as Hmod.
  set (q := (length recs / B)%nat) in *.
  destruct (decide (i < q)%nat) as [Hi|Hi].
  - rewrite lookup_app_l by (by rewrite length_fmap, length_seq).
    rewrite list_lookup_fmap, lookup_seq_lt by done. simpl.
    intros [= <-]. split; [done|nia].
  - rewrite lookup_app_r by (rewrite length_fmap, length_seq; lia).
    rewrite length_fmap, length_seq.
    destruct (drop (q * B) recs) as [|r rest] eqn:Hdrop; [done|].
    destruct (i - q)%nat as [|j] eqn:Hj; [|done]. simpl.
    assert (i = q) as -> by lia.
    assert (length (drop (q * B) recs) = length (r :: rest)) as Hlen
      by by rewrite Hdrop.
    rewrite length_drop in Hlen. simpl in Hlen.
    intros [= <-]. split; [|lia].
    rewrite take_ge; [by rewrite Hdrop|]. rewrite length_drop. nia.
Qed.

Lemma batches_length B recs :
  (0 < B)%nat →
  length (batches B recs None) = ((length recs + B - 1) / B)%nat.
Proof.
  intros HB. unfold batches.
  pose proof (Nat.div_mod_eq (length recs) B) as Hdm.
  pose proof (Nat.mod_upper_bound (length recs) B ltac:(lia)) as Hmod.
  set (q := (length recs / B)%nat) in *.
  rewrite length_app, length_fmap, length_seq.
  destruct (drop (q * B) recs) as [|r rest] eqn:Hdrop.
  - apply (f_equal length) in Hdrop. rewrite length_drop in Hdrop.
    simpl in *. apply Nat.div_unique with (r := (B - 1)%nat); nia.
  - apply (f_equal length) in Hdrop. rewrite length_drop in Hdrop.
    simpl in *.
    apply Nat.div_unique with (r := (length recs mod B - 1)%nat); nia.
Qed.

(** The [with] statement of [wspr_import]: it returns, and this is what
    it leaves. *)
Lemma import_records_inv B (odb : option (database Coord)) g :
  (0 < B)%nat →
  ∃ db' written failed rs res,
    import_records B odb g
    = Some (db', [OpConnect] ++ ((λ b, OpExecutemany b None) <$> written)
                   ++ failed ++ [OpCommit; OpClose], res) ∧
    let db0 := default empty_database odb in
    db' = Database (tables db0) (indexes db0) (pragmas db0) (rows db0 ++ rs) ∧
    Forall keyed rs ∧
    (∃ part, columns <$> rs = concat written ++ part) ∧
    (∃ tail, (drain g).1 = (columns <$> rs) ++ tail) ∧
    (written ≠ [] → "wspr" ∈ tables db0) ∧
    match res with
    | Ok n =>
        written = batches B (drain g).1 None ∧ failed = [] ∧
        (drain g).2 = None ∧ columns <$> rs = (drain g).1 ∧
        n = Z.of_nat (length (drain g).1)
    | Raise ex =>
        (written = batches B (drain g).1 (Some ex) ∧ failed = [] ∧
         (drain g).2 = Some ex) ∨
        (∃ b rest, batches B (drain g).1 (drain g).2 = written ++ b :: rest ∧
                   failed = [OpExecutemany b (Some ex)])
    end.
Proof.
  intros HB. unfold import_records.
  rewrite (import_loop_spec _ B g (connect odb) 0 HB) by lia.
  destruct (run_batches _ _ _ _) as [c' res] eqn:Hrun.
  apply run_batches_spec in Hrun
    as (Hdb & written & failed & rs & Htr & Hp & Hrs & Hpart & (tail & Htail)
        & Ht & Hres).
  destruct (concat_batches B (drain g).1 (drain g).2 HB) as (tail' & Hrecs & He).
  exists (DBConnect_exit c').1, written, failed, rs, res. simpl in *.
  unfold DBConnect_exit, close, commit. simpl.
  rewrite Htr, Hp, Hdb. simpl. split; [by rewrite <- !app_assoc|].
  repeat split; try done.
  - exists (tail ++ tail'). rewrite app_assoc, <- Htail. exact Hrecs.
  - destruct res as [n|ex].
    + destruct Hres as (-> & -> & He' & Hcols & ->).
      rewrite He' in *. rewrite (He eq_refl), app_nil_r in Hrecs.
      rewrite <- Hrecs in *. repeat split; try done.
    + destruct Hres as [(-> & -> & He')|Hres]; [left|by right].
      by rewrite He'.
Qed.

Lemma foldr_max_ge (x : Z) (l : list Z) y :
  In y (x :: l) → y <= foldr Z.max x l.
Proof.
  induction l as [|z l IH]; simpl.
  - intros [->|[]]. lia.
  - intros [->|[->|Hin]].
    + specialize (IH (or_introl eq_refl)). lia.
    + lia.
    + specialize (IH (or_intror Hin)). lia.
Qed.

Lemma foldr_max_in (x : Z) (l : list Z) : In (foldr Z.max x l) (x :: l).
Proof.
  induction l as [|z l IH]; simpl; [by left|].
  destruct (Z.max_spec z (foldr Z.max x l)) as [[_ ->]|[_ ->]].
  - destruct IH as [IH|IH]; [by left|by right; right].
  - by right; left.
Qed.

Lemma max_Z_ge (l : list Z) y : In y l → ∃ m, max_Z l = Some m ∧ y <= m.
Proof.
  destruct l as [|x l]; [done|]. intros Hin. simpl.
  eexists. split; [done|]. by apply foldr_max_ge.
Qed.

Lemma max_Z_in (l : list Z) m : max_Z l = Some m → In m l.
Proof.
  destruct l as [|x l]; [done|]. intros [= <-]. apply foldr_max_in.
Qed.

Lemma watermark_ge db (row : row Coord) :
  In row (rows db) → spot_id row <= watermark db.
Proof.
  intros Hin. unfold watermark.
  destruct (max_Z_ge (spot_id <$> rows db) (spot_id row)) as (m & -> & ?);
    [|done].
  apply list_elem_of_In, list_elem_of_fmap. exists row.
  split; [done|]. by apply list_elem_of_In.
Qed.

Lemma watermark_in db :
  rows db ≠ [] → ∃ row, In row (rows db) ∧ spot_id row = watermark db.
Proof.
  intros Hne. unfold watermark.
  destruct (max_Z (spot_id <$> rows db)) as [m|] eqn:Hm.
  - apply max_Z_in, list_elem_of_In, list_elem_of_fmap in Hm as (row & -> & ?).
    exists row. split; [by apply list_elem_of_In|done].
  - by destruct (rows db).
Qed.

(** Where Python and SQLite both read a text as an integer, they read
    the same one. *)
Definition ints_agree : Prop :=
  ∀ s i k, py_int s = Some i → sqlite_rowid (FStr s) = Some k → i = k.

(** The row id of a stored record is the id [read_spots] compared with
    the watermark. *)
Lemma keyed_record_id (row : row Coord) id :
  ints_agree → keyed row → record_id (columns row) = Some id →
  spot_id row = id.
Proof.
  intros Hagree [_ Hk]. unfold record_id.
  destruct (columns row) as [|[s|x] fs]; try done.
  simpl in Hk. intros Hid. symmetry. by apply (Hagree s).
Qed.

(** A reader whose watermark is at least every id of the archive yields
    nothing and ends normally. *)
Lemma drain_all_skipped start_id lines :
  Forall (λ line, ∃ id, line_id line = Some id ∧ id <= start_id) lines →
  drain_lines start_id None lines = ([], None).
Proof.
  induction 1 as [|line lines (id & Hid & Hle) _ IH]; simpl; [done|].
  rewrite read_line_not_above; [done| |by rewrite Hid].
  unfold above. rewrite Hid. by apply Z.ltb_ge.
Qed.

End Coordinator.

(** * The claims *)

Section Claims.

Context {Coord : Type} `{!Platform Coord}.

Implicit Types (a : archive) (line : string).

Lemma BULK_LENGTH_pos : (0 < BULK_LENGTH)%nat.
Proof. unfold BULK_LENGTH. lia. Qed.

(** [r] is the record of [line]: the fields of the line, then the pair
    the resolver gives for field 3 and the pair it gives for field 7 of
    the list made longer by the first pair. *)
Definition enriched line (r : record Coord) : Prop :=
  ∃ tx rx tx_lat tx_lon rx_lat rx_lon,
    r = line_fields line
          ++ [FFloat tx_lat; FFloat tx_lon; FFloat rx_lat; FFloat rx_lon] ∧
    line_fields line !! 3%nat = Some tx ∧
    grid2latlon tx = Ok (tx_lat, tx_lon) ∧
    (line_fields line ++ [FFloat tx_lat; FFloat tx_lon]) !! 7%nat = Some rx ∧
    grid2latlon rx = Ok (rx_lat, rx_lon) ∧
    ((8 ≤ length (line_fields (Coord := Coord) line))%nat →
     line_fields line !! 7%nat = Some rx).

Lemma read_line_enriched start_id line (r : record Coord) :
  read_line start_id line = Emit r → enriched line r.
Proof.
  intros (id & tx & rx & tx_lat & tx_lon & rx_lat & rx_lon & _ & _ & Htx & Hg1
          & Hrx & Hg2 & ->)%read_line_Emit.
  exists tx, rx, tx_lat, tx_lon, rx_lat, rx_lon. repeat split; try done.
  intros Hlen. by rewrite lookup_app_l in Hrx by lia.
Qed.

Lemma drain_ids_above a (start_id : Z) :
  Forall (λ r, ∃ id, record_id r = Some id ∧ start_id < id)
    (drain (read_spots a start_id)).1.
Proof.
  apply List.Forall_forall. intros r Hin.
  destruct (drain_Emit a start_id r Hin) as (line & _ & Hl).
  rewrite (record_id_Emit _ _ _ Hl).
  apply read_line_Emit in Hl as (id & ? & ? & ? & ? & ? & ? & Hid & ? & _).
  by exists id.
Qed.

(** A line [read_spots] does not raise on: its leading field is an
    integer and, when that integer is above the watermark, field 3 is
    there and the resolver accepts it, and so for field 7 of the list
    made longer by the transmitter pair. *)
Definition readable (start_id : Z) line : Prop :=
  ∃ id, line_id line = Some id ∧
        (id <= start_id ∨
         ∃ tx tx_lat tx_lon rx rx_lat rx_lon,
           line_fields (Coord := Coord) line !! 3%nat = Some tx ∧
           grid2latlon tx = Ok (tx_lat, tx_lon) ∧
           (line_fields line ++ [FFloat tx_lat; FFloat tx_lon]) !! 7%nat
           = Some rx ∧
           grid2latlon rx = Ok (rx_lat, rx_lon)).

Lemma readable_iff start_id line :
  readable start_id line ↔ ∀ e, read_line start_id line ≠ Fail e.
Proof.
  split.
  - intros (id & Hid & Hcase) e. revert Hid Hcase.
    unfold read_line, line_id, line_fields, record.
    set (fs := PyStr.split "," (PyStr.rstrip line)).
    destruct (fs !! 0%nat) as [f0|]; [|done]. cbn [mbind option_bind].
    intros ->. destruct (Z.leb_spec id start_id) as [Hle|Hgt]; [done|].
    intros [Hle|(tx & tx_lat & tx_lon & rx & rx_lat & rx_lon & -> & -> & Hrx
                 & Hg)]; [lia|].
    rewrite Hrx, Hg. done.
  - intros Hok. destruct (read_line start_id line) as [|r|e] eqn:Hl.
    + apply read_line_Skip in Hl as (id & Hid & Hle).
      exists id. split; [done|by left].
    + apply read_line_Emit in Hl
        as (id & tx & rx & tx_lat & tx_lon & rx_lat & rx_lon & Hid & _ & Htx
            & Hg1 & Hrx & Hg2 & _).
      exists id. split; [done|]. right.
      by exists tx, tx_lat, tx_lon, rx, rx_lat, rx_lon.
    + by destruct (Hok e).
Qed.

(** C5, as the code has it. For every archive and watermark [start_id],
    the reader consumes the lines up to the end of the archive or to the
    first line that is not readable, on which it raises. The records it
    yields are, in file order, one for each consumed line whose leading
    field is above [start_id]: the fields of that line with its
    coordinates. None has an id at or below [start_id]. So on an archive
    whose lines are all readable no line above the watermark is left
    out, and otherwise the lines after the first unreadable one are. *)
Theorem read_spots_yields_above_watermark a (start_id : Z) :
  ∃ consumed rest,
    a_lines a = consumed ++ rest ∧
    Forall (readable start_id) consumed ∧
    Forall2 (λ line r, enriched line r ∧ record_id r = line_id line)
      (List.filter (above start_id) consumed)
      (drain (read_spots a start_id)).1 ∧
    Forall (λ r, ∃ id, record_id r = Some id ∧ start_id < id)
      (drain (read_spots a start_id)).1 ∧
    match rest with
    | [] => (drain (read_spots a start_id)).2 = a_error a
    | line :: _ =>
        ¬ readable start_id line ∧
        ∃ ex, read_line start_id line = Fail ex ∧
              (drain (read_spots a start_id)).2 = Some ex
    end ∧
    (Forall (readable start_id) (a_lines a) →
     consumed = a_lines a ∧ (drain (read_spots a start_id)).2 = a_error a).
Proof.
  unfold drain, read_spots. simpl.
  destruct (drain_lines_spec start_id (a_error a) (a_lines a))
    as (consumed & rest & Hlines & Hrecs & Hok & Hend).
  assert (match rest with
          | [] => True
          | line :: _ => ¬ readable start_id line
          end) as Hbad.
  { destruct rest as [|line rest]; [done|].
    destruct Hend as (ex & Hfail & _). intros Hr.
    by destruct (proj1 (readable_iff start_id line) Hr ex). }
  exists consumed, rest. split; [done|]. split.
  { eapply Forall_impl; [exact Hok|]. intros line Hl. by apply readable_iff. }
  split.
  { eapply Forall2_impl; [exact Hrecs|]. intros line r Hl. split.
    - by apply read_line_enriched in Hl.
    - by apply record_id_Emit in Hl. }
  split; [apply drain_ids_above|]. split.
  - destruct rest as [|line rest]; [done|]. by split.
  - intros Hall. destruct rest as [|line rest].
    + split; [|done]. by rewrite Hlines, app_nil_r.
    + exfalso. apply Hbad. rewrite Hlines in Hall.
      apply Forall_app in Hall as [_ Hall]. by inversion Hall.
Qed.

(** C8. Every record the reader yields is the fields of a line of the
    archive followed by exactly four derived fields: the pair the
    resolver returns for the transmitter grid (field 3), then the pair it
    returns for the receiver grid (field 7, a field of the line as soon
    as the line has eight fields). Every row an import adds to the store
    holds such a record, of a line with fifteen fields. *)
Theorem stored_coordinates_are_resolved a (start_id : Z) :
  (∀ r, In r (drain (read_spots a start_id)).1 →
        ∃ line, In line (a_lines a) ∧ enriched line r) ∧
  (∀ odb db' tr res row,
     import_records BULK_LENGTH odb (read_spots a start_id)
     = Some (db', tr, res) →
     In row (rows db') →
     In row (rows (default empty_database odb)) ∨
     ∃ line, In line (a_lines a) ∧ enriched line (columns row) ∧
             length (line_fields (Coord := Coord) line) = 15%nat).
Proof.
  assert (∀ r, In r (drain (read_spots a start_id)).1 →
               ∃ line, In line (a_lines a) ∧ enriched line r) as Hyield.
  { intros r (line & Hin & Hl)%drain_Emit. exists line.
    split; [done|]. by eapply read_line_enriched. }
  split; [done|].
  intros odb db' tr res row Himp Hrow.
  destruct (import_records_inv BULK_LENGTH odb (read_spots a start_id)
              BULK_LENGTH_pos)
    as (db1 & written & failed & rs & res1 & Heq & -> & Hrs & _ & (tail & Htail)
        & _).
  rewrite Heq in Himp. injection Himp as <- _ _. simpl in Hrow.
  apply in_app_or in Hrow as [Hrow|Hrow]; [by left|right].
  destruct (Hyield (columns row)) as (line & Hline & Hen).
  { rewrite Htail. apply in_or_app. left.
    apply list_elem_of_In, list_elem_of_fmap. exists row.
    split; [done|]. by apply list_elem_of_In. }
  exists line. repeat split; [done..|].
  apply (proj1 (List.Forall_forall _ _) Hrs) in Hrow as [Hlen _].
  destruct Hen as (? & ? & ? & ? & ? & ? & Hr & _). rewrite Hr in Hlen.
  rewrite length_app in Hlen. unfold INSERT_bindings in Hlen. simpl in Hlen. lia.
Qed.

Definition is_commit (op : db_op Coord) : bool :=
  match op with OpCommit => true | _ => false end.

Definition is_executemany (op : db_op Coord) : bool :=
  match op with OpExecutemany _ _ => true | _ => false end.

Lemma filter_commit_executemany (written : list (list (record Coord))) :
  List.filter is_commit ((λ b, OpExecutemany b None) <$> written) = [].
Proof. by induction written. Qed.

Lemma ceil_div (M B : nat) :
  (0 < B)%nat →
  ((M + B - 1) / B = M / B + if decide (M mod B = 0) then 0 else 1)%nat.
Proof.
  intros HB.
  pose proof (Nat.div_mod_eq M B) as Hdm.
  pose proof (Nat.mod_upper_bound M B ltac:(lia)) as Hmod.
  symmetry. case_decide.
  - apply Nat.div_unique with (r := (B - 1)%nat); nia.
  - apply Nat.div_unique with (r := (M mod B - 1)%nat); nia.
Qed.

(** C1, as the code has it. For a stream of M records that is imported
    without an exception, the coordinator makes exactly ⌈M/B⌉ calls of
    [executemany], B being 1000, one for each full batch as soon as it
    fills and one for what is left at the end of the stream; the last
    call has M mod B records, or B when M is a multiple of B, and with
    M = 0 there is none. These calls run in one transaction: the
    connection is committed once, when the wrapper exits, and the M
    records are in the store after that commit. *)
Theorem import_batches_one_commit (odb : option (database Coord)) a
    (start_id : Z) db' tr (n : Z) :
  import_records BULK_LENGTH odb (read_spots a start_id)
  = Some (db', tr, Ok n) →
  let recs := (drain (read_spots a start_id)).1 in
  let M := length recs in
  n = Z.of_nat M ∧
  ∃ written rs,
    tr = [OpConnect] ++ ((λ b, OpExecutemany b None) <$> written)
           ++ [OpCommit; OpClose] ∧
    concat written = recs ∧
    length written = ((M + BULK_LENGTH - 1) / BULK_LENGTH)%nat ∧
    (∀ (i : nat) b, written !! i = Some b →
       length b = if decide (S i = length written)
                  then if decide (M mod BULK_LENGTH = 0)%nat
                       then BULK_LENGTH else (M mod BULK_LENGTH)%nat
                  else BULK_LENGTH) ∧
    length (List.filter is_commit tr) = 1%nat ∧
    rows db' = rows (default empty_database odb) ++ rs ∧
    columns <$> rs = recs.
Proof.
  intros Himp recs M.
  destruct (import_records_inv BULK_LENGTH odb (read_spots a start_id)
              BULK_LENGTH_pos)
    as (db1 & written & failed & rs & res1 & Heq & -> & Hrs & _ & _ & _ & Hres).
  rewrite Heq in Himp. injection Himp as <- <- ->.
  destruct Hres as (-> & -> & _ & Hcols & ->). split; [done|].
  fold recs in Hcols |- *.
  exists (batches BULK_LENGTH recs None), rs.
  destruct (concat_batches BULK_LENGTH recs None BULK_LENGTH_pos)
    as (tail & Hconcat & Htail).
  rewrite (Htail eq_refl), app_nil_r in Hconcat.
  pose proof BULK_LENGTH_pos as HB.
  repeat split; try done.
  - rewrite batches_length by done. done.
  - intros i b Hb. rewrite batches_length by done. fold M.
    apply batches_lookup in Hb as [-> Hi]; [|done].
    rewrite length_take, length_drop. fold M in Hi |- *.
    rewrite ceil_div by done.
    pose proof (Nat.div_mod_eq M BULK_LENGTH) as Hdm.
    pose proof (Nat.mod_upper_bound M BULK_LENGTH ltac:(lia)) as Hmod.
    repeat case_decide; nia.
  - simpl. rewrite List.filter_app, filter_commit_executemany. done.
Qed.

(** The rows an import stores hold records the reader yielded: under
    [ints_agree] their row id is the id the reader compared with the
    watermark, and it is above the watermark. *)
Lemma imported_rows_above a (start_id : Z) (rs : list (row Coord)) tail :
  ints_agree →
  (drain (read_spots a start_id)).1 = (columns <$> rs) ++ tail →
  Forall keyed rs →
  Forall (λ row, record_id (columns row) = Some (spot_id row) ∧
                 start_id < spot_id row) rs.
Proof.
  intros Hagree Hrecs Hrs. apply List.Forall_forall. intros row Hrow.
  assert (In (columns row) (drain (read_spots a start_id)).1) as Hin.
  { rewrite Hrecs. apply in_or_app. left.
    apply list_elem_of_In, list_elem_of_fmap. exists row.
    split; [done|]. by apply list_elem_of_In. }
  apply drain_Emit in Hin as (line & _ & Hl).
  pose proof (record_id_Emit _ _ _ Hl) as Hid.
  apply read_line_Emit in Hl as (id & ? & ? & ? & ? & ? & ? & Hline & ? & _).
  rewrite Hline in Hid.
  apply (proj1 (List.Forall_forall _ _) Hrs) in Hrow.
  rewrite (keyed_record_id row id Hagree Hrow Hid). done.
Qed.

Lemma watermark_grows (db0 db' : database Coord) (rs : list (row Coord)) :
  rows db' = rows db0 ++ rs →
  Forall (λ row, watermark db0 < spot_id row) rs →
  watermark db0 <= watermark db'.
Proof.
  intros Hrows Hrs. destruct (rows db0) as [|row0 rows0] eqn:Hdb0.
  - destruct rs as [|row rs'].
    + unfold watermark. by rewrite Hrows, Hdb0.
    + destruct (watermark_in db') as (row' & Hin & <-); [by rewrite Hrows|].
      rewrite Hrows in Hin. simpl in Hin.
      apply (proj1 (List.Forall_forall _ _) Hrs) in Hin. lia.
  - destruct (watermark_in db0) as (row & Hin & <-); [by rewrite Hdb0|].
    apply watermark_ge. rewrite Hrows, <- Hdb0. apply in_or_app. by left.
Qed.



Lemma max_Z_unique (l : list Z) m :
  In m l → (∀ x, In x l → x <= m) → max_Z l = Some m.
Proof.
  intros Hin Hmax. destruct l as [|x l]; [done|]. simpl. f_equal.
  pose proof (foldr_max_in x l) as Hin'. apply Hmax in Hin'.
  pose proof (foldr_max_ge x l m Hin). lia.
Qed.

(** A first import that completes leaves a watermark at least every id
    of the archive, and an import of the same archive from that
    watermark writes nothing. *)
Lemma import_twice (odb : option (database Coord)) a db1 tr (n : Z) :
  ints_agree →
  import_records BULK_LENGTH odb
    (read_spots a (watermark (default empty_database odb)))
  = Some (db1, tr, Ok n) →
  Forall (λ line, ∃ id, line_id line = Some id ∧ id <= watermark db1)
    (a_lines a) ∧
  tables db1 = tables (default empty_database odb) ∧
  watermark (default empty_database odb) <= watermark db1 ∧
  import_records BULK_LENGTH (Some db1) (read_spots a (watermark db1))
  = Some (db1, [OpConnect; OpCommit; OpClose], Ok 0) ∧
  ((∃ line, In line (a_lines a) ∧
            above (watermark (default empty_database odb)) line = true) →
   max_Z (omap line_id (a_lines a)) = Some (watermark db1)).
Proof.
  intros Hagree Himp. set (db0 := default empty_database odb) in *.
  destruct (import_records_inv BULK_LENGTH odb (read_spots a (watermark db0))
              BULK_LENGTH_pos)
    as (db' & written & failed & rs & res1 & Heq & Hdb1 & Hrs & _
        & (tail & Htail) & _ & Hres).
  rewrite Heq in Himp. injection Himp as -> _ ->. fold db0 in Hdb1.
  destruct Hres as (_ & _ & Hend & Hcols & _).
  pose proof (imported_rows_above _ _ _ _ Hagree Htail Hrs) as Habove.
  assert (rows db1 = rows db0 ++ rs) as Hrows by by rewrite Hdb1.
  assert (watermark db0 <= watermark db1) as Hmono.
  { apply (watermark_grows _ _ rs Hrows).
    eapply Forall_impl; [exact Habove|]. by intros row [_ ?]. }
  (* every line was read, and is skipped or stored *)
  unfold drain, read_spots in Hend, Hcols. simpl in Hend, Hcols.
  destruct (drain_lines_spec (watermark db0) (a_error a) (a_lines a))
    as (consumed & rest & Hlines & Hrecs & Hok & Hrest).
  destruct rest as [|line rest];
    [|destruct Hrest as (e & _ & He); by rewrite He in Hend].
  rewrite Hend in Hrest. rewrite app_nil_r in Hlines. subst consumed.
  assert (∀ line r, In line (a_lines a) →
            read_line (watermark db0) line = Emit r →
            ∃ row, In row rs ∧ line_id line = Some (spot_id row)) as Hstored.
  { intros line r Hline Hl.
    assert (In r (columns <$> rs)) as Hr.
    { rewrite Hcols. clear -Hrecs Hline Hl.
      assert (In line (List.filter (above (watermark db0)) (a_lines a))) as Hf.
      { apply filter_In. split; [done|]. by eapply above_Emit. }
      revert Hf. induction Hrecs as [|l r' ls rs' Hlr _ IH]; [done|].
      intros [->|Hf]; [left; congruence|right; by apply IH]. }
    apply list_elem_of_In, list_elem_of_fmap in Hr as (row & -> & Hrow).
    apply list_elem_of_In in Hrow. exists row. split; [done|].
    rewrite <- (record_id_Emit _ _ _ Hl).
    by apply (proj1 (List.Forall_forall _ _) Habove row Hrow). }
  assert (Forall (λ line, ∃ id, line_id line = Some id ∧ id <= watermark db1)
            (a_lines a)) as Hall.
  { apply List.Forall_forall. intros line Hline.
    pose proof (proj1 (List.Forall_forall _ _) Hok line Hline) as Hnofail.
    destruct (read_line (watermark db0) line) as [|r|e] eqn:Hl.
    - apply read_line_Skip in Hl as (id & Hid & ?). exists id. split; [done|lia].
    - destruct (Hstored line r Hline Hl) as (row & Hrow & Hid).
      exists (spot_id row). split; [done|]. apply watermark_ge.
      rewrite Hrows. apply in_or_app. by right.
    - by destruct (Hnofail e). }
  split; [done|]. split; [by rewrite Hdb1|]. split; [done|]. split.
  - destruct (import_records_inv BULK_LENGTH (Some db1)
                (read_spots a (watermark db1)) BULK_LENGTH_pos)
      as (db2 & written2 & failed2 & rs2 & res2 & Heq2 & Hdb2 & _ & (part & Hpart)
          & (tail2 & Htail2) & _ & Hres2).
    assert (drain (read_spots a (watermark db1)) = ([], None)) as Hdrain.
    { unfold drain, read_spots. simpl. rewrite <- Hrest.
      by apply drain_all_skipped. }
    rewrite Hdrain in Htail2, Hres2. simpl in Htail2, Hres2.
    symmetry in Htail2. apply app_eq_nil in Htail2 as [Hrs2 _].
    apply fmap_nil_inv in Hrs2 as ->.
    rewrite batches_last in Hres2 by (pose proof BULK_LENGTH_pos; simpl; lia).
    assert (written2 = [] ∧ failed2 = [] ∧ res2 = Ok 0) as (-> & -> & ->).
    { destruct res2 as [n2|ex].
      - by destruct Hres2 as (-> & -> & _ & _ & ->).
      - destruct Hres2 as [(_ & _ & [=])|(b & rest & Hb & _)].
        by destruct written2. }
    rewrite Heq2, Hdb2. simpl. rewrite app_nil_r. by destruct db1.
  - intros (line & Hline & Habv). apply max_Z_unique.
    + destruct (watermark_in db1) as (row & Hrow & Hw).
      { rewrite Hrows. intros Hnil. apply app_eq_nil in Hnil as [_ ->].
        destruct (read_line (watermark db0) line) as [|r|e] eqn:Hl.
        - apply above_Skip in Hl. congruence.
        - by destruct (Hstored line r Hline Hl) as (row & [] & _).
        - by destruct (proj1 (List.Forall_forall _ _) Hok line Hline e). }
      rewrite <- Hw. rewrite Hrows in Hrow.
      apply in_app_or in Hrow as [Hrow|Hrow].
      * (* the largest id cannot be an old one *)
        exfalso.
        assert (spot_id row <= watermark db0) by by apply watermark_ge.
        destruct (read_line (watermark db0) line) as [|r|e] eqn:Hl.
        -- apply above_Skip in Hl. congruence.
        -- destruct (Hstored line r Hline Hl) as (row' & Hrow' & _).
           pose proof (proj1 (List.Forall_forall _ _) Habove row' Hrow')
             as [_ ?].
           assert (spot_id row' <= watermark db1).
           { apply watermark_ge. rewrite Hrows. apply in_or_app. by right. }
           lia.
        -- by destruct (proj1 (List.Forall_forall _ _) Hok line Hline e).
      * pose proof (proj1 (List.Forall_forall _ _) Habove row Hrow) as [Hid _].
        assert (In (columns row) (drain (read_spots a (watermark db0))).1)
          as Hin.
        { unfold drain, read_spots. simpl. rewrite <- Hcols.
          apply list_elem_of_In, list_elem_of_fmap. exists row.
          split; [done|]. by apply list_elem_of_In. }
        apply drain_Emit in Hin as (line' & Hline' & Hl').
        rewrite (record_id_Emit _ _ _ Hl') in Hid.
        apply list_elem_of_In, list_elem_of_omap. exists line'.
        split; [by apply list_elem_of_In|done].
    + intros x (line' & Hline' & Hx)%list_elem_of_In%list_elem_of_omap.
      apply list_elem_of_In in Hline'.
      apply (proj1 (List.Forall_forall _ _) Hall) in Hline' as (id & Hid & ?).
      rewrite Hid in Hx. by injection Hx as <-.
Qed.

Lemma open_archive_files (filename : string) (w w' : world Coord) :
  w_files w = w_files w' → open_archive filename w = open_archive filename w'.
Proof. unfold open_archive. by intros ->. Qed.

(** A timer made without [nb_lines] logs a message without a rate and
    does not raise. *)
Lemma Timer_exit_0 (title : string) (start : Z) (w : world Coord) :
  ∃ hour minute sec milliseconds,
    Timer_exit title 0 start w
    = (logging INFO (MsgTimer title hour minute sec milliseconds None)
         (time_time w).2, None).
Proof.
  unfold Timer_exit. destruct (time_time w) as [now w1]. simpl.
  by eexists _, _, _, _.
Qed.

Lemma Timer_0 {A : Type} (title : string)
    (body : world Coord → option (world Coord * result A)) (w : world Coord) :
  Timer title 0 body w
  = '(w1, r) ← body (time_time w).2;
    Some ((Timer_exit title 0 (time_time w).1 w1).1, r).
Proof.
  unfold Timer. destruct (time_time w) as [start w0]. simpl.
  destruct (body w0) as [[w1 r1]|]; simpl; [|done].
  destruct (Timer_exit_0 title start w1) as (? & ? & ? & ? & ->). done.
Qed.

Lemma time_time_frame (w : world Coord) :
  w_db (time_time w).2 = w_db w ∧ w_files (time_time w).2 = w_files w ∧
  w_log (time_time w).2 = w_log w ∧ w_dbtrace (time_time w).2 = w_dbtrace w ∧
  w_net (time_time w).2 = w_net w ∧ w_today (time_time w).2 = w_today w.
Proof. unfold time_time. by destruct (w_clock w). Qed.

Lemma create_db_fresh :
  ∃ db tr, create_db (Coord := Coord) None = (db, tr, Ok tt) ∧
           "wspr" ∈ tables db ∧ rows db = [].
Proof.
  destruct (create_db (Coord := Coord) None) as [[db tr] r] eqn:Hc.
  assert (r = Ok tt) as ->.
  { change r with (db, tr, r).2. rewrite <- Hc. by vm_compute. }
  exists db, tr. split; [done|]. split.
  - change db with (db, tr, Ok tt).1.1. rewrite <- Hc.
    eapply bool_decide_eq_true. by vm_compute.
  - change db with (db, tr, Ok tt).1.1. rewrite <- Hc. by vm_compute.
Qed.

(** The two ways [main] finds the watermark. *)
Lemma last_id_of_cases (w : world Coord) :
  match w_db w with
  | Some db =>
      if decide ("wspr" ∈ tables db) then
        last_id_of w
        = (logging INFO (MsgLastId (watermark db))
             (set_db (db, [OpConnect; OpSelectMax; OpCommit; OpClose])
                (logging INFO MsgCountingRecords w)),
           Ok (watermark db))
      else ∃ w', last_id_of w = (w', Raise OperationalError)
  | None =>
      ∃ db tr, "wspr" ∈ tables db ∧ rows db = [] ∧
               last_id_of w = (set_db (db, tr) w, Ok 0)
  end.
Proof.
  unfold last_id_of. destruct (w_db w) as [db|] eqn:Hdb.
  - unfold DBConnect, select_max, connect, DBConnect_exit, close, commit.
    simpl. rewrite Hdb. simpl.
    destruct (decide ("wspr" ∈ tables db)) as [Ht|Ht]; simpl.
    + rewrite !app_nil_r. fold (watermark db). by destruct db.
    + by eexists.
  - destruct create_db_fresh as (db & tr & -> & Ht & Hrows). by exists db, tr.
Qed.

(** What a run of [main_import] that returns has done: the import ran
    from the watermark of the database, created first if it was
    missing. *)
Lemma main_import_Ok (filename : string) (w w1 : world Coord) :
  main_import filename w = Some (w1, Ok tt) →
  ∃ db0 db1 tr n,
    "wspr" ∈ tables db0 ∧
    import_records BULK_LENGTH (Some db0)
      (read_spots (open_archive filename w) (watermark db0))
    = Some (db1, tr, Ok n) ∧
    w_db w1 = Some db1 ∧ w_files w1 = w_files w ∧
    watermark db0 = watermark (default empty_database (w_db w)).
Proof.
  unfold main_import.
  set (wa := logging INFO (MsgDatabase DB_NAME) w).
  assert ((∃ wb db0, last_id_of wa = (wb, Ok (watermark db0)) ∧
                     w_db wb = Some db0 ∧ "wspr" ∈ tables db0 ∧
                     w_files wb = w_files w ∧
                     watermark db0
                     = watermark (default empty_database (w_db w)))
          ∨ ∃ wb e, last_id_of wa = (wb, Raise e)) as Hlast.
  { pose proof (last_id_of_cases wa) as Hc.
    assert (w_db wa = w_db w) as Hwa by done. rewrite Hwa in Hc.
    destruct (w_db w) as [db|].
    - destruct (decide ("wspr" ∈ tables db)) as [Ht|Ht].
      + left. eexists _, db. by split.
      + right. destruct Hc as [w' ->]. by eexists _, _.
    - destruct Hc as (db & tr & Ht & Hrows & ->).
      assert (watermark db = 0) as Hw by (unfold watermark; by rewrite Hrows).
      left. eexists _, db. rewrite Hw. by repeat split. }
  destruct Hlast as [(wb & db0 & -> & Hdb & Ht & Hfiles & Hw0)|(wb & e & ->)];
    [|done].
  rewrite Timer_0.
  set (wb' := logging INFO (MsgImporting filename) wb).
  pose proof (time_time_frame wb') as (Hdbc & Hfc & _).
  unfold wspr_import.
  rewrite Hdbc, (open_archive_files filename (time_time wb').2 w)
    by by rewrite Hfc.
  simpl. rewrite Hdb.
  destruct (import_records _ _ _) as [[[db1 tr] [n|e]]|] eqn:Himp; simpl;
    [| |done].
  - destruct (Timer_exit_0 "Import WSPR" (time_time wb').1
                (logging INFO (MsgRecordsProcessed n)
                   (set_db (db1, tr) (time_time wb').2)))
      as (? & ? & ? & ? & ->). simpl.
    intros [= <-]. exists db0, db1, tr, n. repeat split; try done; simpl.
    + by destruct (time_time_frame (logging INFO (MsgRecordsProcessed n)
                                      (set_db (db1, tr) (time_time wb').2)))
        as (-> & _).
    + destruct (time_time_frame (logging INFO (MsgRecordsProcessed n)
                                   (set_db (db1, tr) (time_time wb').2)))
        as (_ & -> & _). simpl. by rewrite Hfc.
  - by destruct (Timer_exit_0 "Import WSPR" (time_time wb').1
                   (set_db (db1, tr) (time_time wb').2))
      as (? & ? & ? & ? & ->).
Qed.

(** A run of [main_import] on a database that has the table, when the
    import returns: the store, the calls made and the log it leaves. *)
Lemma main_import_existing (filename : string) (w : world Coord)
    (db0 db1 : database Coord) tr (n : Z) :
  w_db w = Some db0 → "wspr" ∈ tables db0 →
  import_records BULK_LENGTH (Some db0)
    (read_spots (open_archive filename w) (watermark db0))
  = Some (db1, tr, Ok n) →
  ∃ w2 hour minute sec milliseconds,
    main_import filename w = Some (w2, Ok tt) ∧
    w_db w2 = Some db1 ∧ w_files w2 = w_files w ∧
    w_dbtrace w2
    = w_dbtrace w ++ [OpConnect; OpSelectMax; OpCommit; OpClose] ++ tr ∧
    w_log w2
    = w_log w ++
      [(INFO, MsgDatabase DB_NAME); (INFO, MsgCountingRecords);
       (INFO, MsgLastId (watermark db0)); (INFO, MsgImporting filename);
       (INFO, MsgRecordsProcessed n);
       (INFO, MsgTimer "Import WSPR" hour minute sec milliseconds None);
       (INFO, MsgCacheInfo)].
Proof.
  intros Hdb Ht Himp. unfold main_import.
  set (wa := logging INFO (MsgDatabase DB_NAME) w).
  pose proof (last_id_of_cases wa) as Hc.
  assert (w_db wa = w_db w) as Hwa by done. rewrite Hwa, Hdb in Hc.
  rewrite decide_True in Hc by done. rewrite Hc. clear Hc.
  rewrite Timer_0.
  set (wb := logging INFO (MsgImporting filename) _).
  pose proof (time_time_frame wb) as (Hdbc & Hfc & Hlog & Htr & _).
  unfold wspr_import.
  rewrite Hdbc, (open_archive_files filename (time_time wb).2 w) by by rewrite Hfc.
  simpl. rewrite Himp. simpl.
  destruct (Timer_exit_0 "Import WSPR" (time_time wb).1
              (logging INFO (MsgRecordsProcessed n)
                 (set_db (db1, tr) (time_time wb).2)))
    as (hour & minute & sec & ms & ->). simpl.
  eexists _, hour, minute, sec, ms. split; [done|]. simpl.
  destruct (time_time_frame (logging INFO (MsgRecordsProcessed n)
                               (set_db (db1, tr) (time_time wb).2)))
    as (-> & -> & -> & -> & _). simpl.
  rewrite Hfc, Hlog, Htr. simpl.
  repeat split; try done.
  - by rewrite <- !app_assoc.
  - by rewrite <- !app_assoc.
Qed.

(** C6, as the code has it. When a run on an archive completes, the
    watermark it leaves is at least every id of the archive, and it is
    the largest id of the archive when the archive had an id above the
    watermark the run started from. A second run on the same archive
    then skips every line: it completes, inserts nothing, reports 0
    records and leaves the store as it was. *)
Theorem second_run_imports_nothing (filename : string) (w w1 : world Coord) :
  ints_agree →
  main_import filename w = Some (w1, Ok tt) →
  ∃ db1 w2 hour minute sec milliseconds,
    w_db w1 = Some db1 ∧
    Forall (λ line, ∃ id, line_id line = Some id ∧ id <= watermark db1)
      (a_lines (open_archive filename w)) ∧
    ((∃ line, In line (a_lines (open_archive filename w)) ∧
              above (watermark (default empty_database (w_db w))) line = true) →
     max_Z (omap line_id (a_lines (open_archive filename w)))
     = Some (watermark db1)) ∧
    main_import filename w1 = Some (w2, Ok tt) ∧
    w_db w2 = Some db1 ∧
    w_dbtrace w2
    = w_dbtrace w1 ++ [OpConnect; OpSelectMax; OpCommit; OpClose;
                       OpConnect; OpCommit; OpClose] ∧
    w_log w2
    = w_log w1 ++
      [(INFO, MsgDatabase DB_NAME); (INFO, MsgCountingRecords);
       (INFO, MsgLastId (watermark db1)); (INFO, MsgImporting filename);
       (INFO, MsgRecordsProcessed 0);
       (INFO, MsgTimer "Import WSPR" hour minute sec milliseconds None);
       (INFO, MsgCacheInfo)].
Proof.
  intros Hagree (db0 & db1 & tr & n & Ht & Himp & Hdb1 & Hfiles & Hw0)%main_import_Ok.
  destruct (import_twice (Some db0) (open_archive filename w) db1 tr n Hagree
              Himp) as (Hall & Htables & _ & Hagain & Hmax).
  simpl in Htables, Hmax.
  rewrite <- (open_archive_files filename w1 w Hfiles) in Hagain.
  destruct (main_import_existing filename w1 db1 db1 _ 0 Hdb1
              ltac:(by rewrite Htables) Hagain)
    as (w2 & hour & minute & sec & ms & Hrun & Hdb2 & _ & Htr & Hlog).
  exists db1, w2, hour, minute, sec, ms. repeat split; try done.
  intros Hnew. apply Hmax. by rewrite Hw0.
Qed.

(** The fetcher downloaded: it logged that it does. *)
Definition downloaded (url : string) (w w' : world Coord) : Prop :=
  ∃ rest, w_log w' = w_log w ++ (INFO, MsgDownloading url) :: rest.

Lemma except_URLError_log (e : exn) (w w' : world Coord) res :
  except_URLError e w = (w', res) →
  w_files w' = w_files w ∧
  (w_log w' = w_log w ∨ w_log w' = w_log w ++ [(INFO, MsgHTTPError e)]).
Proof.
  unfold except_URLError. destruct (is_URLError e); intros [= <- <-]; simpl.
  - split; [done|by right].
  - split; [done|by left].
Qed.

(** What the fetcher does once it has decided to download. *)
Lemma download_archive_forced path (month : option Z) (force : bool)
    (w : world Coord) len reads :
  let target := path_join path (target_file month (w_today w)) in
  let url := urljoin WSPR_ARCHIVE (target_file month (w_today w)) in
  w_net w url = UrlResponse len reads →
  force = true ∨ (∃ L, len = Some L ∧ get_size target w < L) →
  download_archive path month force w
  = let w1 := write_file target (copy_body reads []).1
                (logging INFO (MsgDownloading url) w) in
    match (copy_body reads []).2 with
    | Some e => except_URLError e w1
    | None => (w1, Ok (Some target))
    end.
Proof.
  intros target url Hnet Hgo. unfold download_archive.
  fold target url. rewrite Hnet.
  destruct (copy_body reads []) as [content err] eqn:Hcopy. simpl.
  destruct force; [done|].
  destruct Hgo as [[=]|(L & -> & HL)].
  by rewrite (proj2 (Z.leb_gt _ _) HL).
Qed.


(** The exception [e] is raised by the existence check, the call of
    [urlopen], or by a read of the body during the download. *)
Definition fetch_fails path (month : option Z) (force : bool)
    (w : world Coord) (e : exn) : Prop :=
  let target := path_join path (target_file month (w_today w)) in
  let url := urljoin WSPR_ARCHIVE (target_file month (w_today w)) in
  w_net w url = UrlRaises e ∨
  ∃ len reads,
    w_net w url = UrlResponse len reads ∧
    (force = true ∨ ∃ L, len = Some L ∧ get_size target w < L) ∧
    (copy_body reads []).2 = Some e.

Lemma fetch_fails_URLError path (month : option Z) (force : bool)
    (w : world Coord) (e : exn) :
  is_URLError e = true → fetch_fails path month force w e →
  ∃ w1, download_archive path month force w = (w1, Ok None) ∧
        w_db w1 = w_db w ∧ w_dbtrace w1 = w_dbtrace w ∧
        ∃ before, w_log w1 = w_log w ++ before ++ [(INFO, MsgHTTPError e)].
Proof.
  intros He [Hnet|(len & reads & Hnet & Hgo & Hread)].
  - unfold download_archive. rewrite Hnet. unfold except_URLError. rewrite He.
    eexists. split; [done|]. repeat split; try done. by exists [].
  - rewrite (download_archive_forced path month force w len reads Hnet Hgo).
    simpl. rewrite Hread. unfold except_URLError. rewrite He.
    eexists. split; [done|]. repeat split; try done. simpl.
    eexists [_]. by rewrite <- app_assoc.
Qed.

(** C9, as the code has it. A [URLError] ([HTTPError] included) raised
    by the existence check or during the download is caught: the
    fetcher logs it and returns no path, and the run logs the timer
    message and the warning that there is nothing to import, and returns
    without having opened the database. *)
Theorem url_error_means_nothing_to_import (opts : options) (w : world Coord)
    (e : exn) :
  truthy (opt_filename opts) = false →
  is_URLError e = true →
  fetch_fails WSPR_PATH (opt_month opts) (opt_force opts) (time_time w).2 e →
  ∃ w1 w2 before hour minute sec milliseconds,
    download_archive WSPR_PATH (opt_month opts) (opt_force opts)
      (time_time w).2 = (w1, Ok None) ∧
    w_log w1 = w_log w ++ before ++ [(INFO, MsgHTTPError e)] ∧
    main opts w = Some (w2, Ok tt) ∧
    w_log w2
    = w_log w1 ++
      [(INFO, MsgTimer "Download archive" hour minute sec milliseconds None);
       (WARNING, MsgNothingToImport)] ∧
    w_db w2 = w_db w ∧ w_dbtrace w2 = w_dbtrace w.
Proof.
  intros Hfile He Hfail.
  destruct (fetch_fails_URLError _ _ _ _ e He Hfail)
    as (w1 & Hdl & Hdb & Htr & before & Hlog).
  pose proof (time_time_frame w) as (Hdb0 & _ & Hlog0 & Htr0 & _).
  unfold main. rewrite Hfile, Timer_0. simpl. rewrite Hdl. simpl.
  destruct (Timer_exit_0 "Download archive" (time_time w).1 w1)
    as (hour & minute & sec & ms & ->). simpl.
  pose proof (time_time_frame w1) as (Hdb1 & _ & Hlog1 & Htr1 & _).
  eexists w1, _, before, hour, minute, sec, ms.
  repeat split; simpl; try done.
  - by rewrite Hlog, Hlog0.
  - by rewrite Hlog1, <- app_assoc.
  - by rewrite Hdb1, Hdb, Hdb0.
  - by rewrite Htr1, Htr, Htr0.
Qed.

Definition set_net (net : string → urlopen_result) (w : world Coord)
  : world Coord :=
  World (w_today w) net (w_clock w) (w_files w) (w_db w) (w_dbtrace w)
    (w_log w).

Lemma seqZ_forallb (P : Z → bool) (lo n : Z) :
  forallb P (seqZ lo n) = true → ∀ y, lo <= y < lo + n → P y = true.
Proof.
  intros H y Hy. eapply forallb_forall in H; [exact H|].
  apply list_elem_of_In, elem_of_seqZ. lia.
Qed.

(** The character of the decimal digit [d], for a [d] from 0 to 9. *)
Definition digit (d : Z) : ascii := ascii_of_N (48 + Z.to_N d).

(** The name [wsprspots-YYYY-MM.csv.gz], written digit by digit. *)
Definition archive_name (year month : Z) : string :=
  "wsprspots-"
  +:+ String (digit (year / 1000))
        (String (digit (year / 100 mod 10))
           (String (digit (year / 10 mod 10))
              (String (digit (year mod 10)) "")))
  +:+ "-"
  +:+ String (digit (month / 10)) (String (digit (month mod 10)) "")
  +:+ ".csv.gz".

Lemma format_year (y : Z) :
  1000 <= y <= 9999 →
  PyStr.format_d false 4 y
  = String (digit (y / 1000))
      (String (digit (y / 100 mod 10))
         (String (digit (y / 10 mod 10)) (String (digit (y mod 10)) ""))).
Proof.
  intros Hy.
  pose proof (seqZ_forallb
    (λ y, String.eqb (PyStr.format_d false 4 y)
            (String (digit (y / 1000))
               (String (digit (y / 100 mod 10))
                  (String (digit (y / 10 mod 10))
                     (String (digit (y mod 10)) "")))))
    1000 9000 ltac:(vm_compute; reflexivity) y ltac:(lia)) as H.
  by apply String.eqb_eq.
Qed.

Lemma format_month (m : Z) :
  1 <= m <= 12 →
  PyStr.format_d true 2 m
  = String (digit (m / 10)) (String (digit (m mod 10)) "").
Proof.
  intros Hm.
  pose proof (seqZ_forallb
    (λ m, String.eqb (PyStr.format_d true 2 m)
            (String (digit (m / 10)) (String (digit (m mod 10)) "")))
    1 12 ltac:(vm_compute; reflexivity) m ltac:(lia)) as H.
  by apply String.eqb_eq.
Qed.

(** C10. The fetcher is given a month and no year. The archive it
    targets is [wsprspots-YYYY-MM.csv.gz] where YYYY is the year of the
    day of the call, for the years 1000 to 9999, and MM the month asked
    for, or the current month when none or 0 is given, in two digits for
    the months 1 to 12, also when that month is later than the current
    one. The fetcher asks the network for that file of the archive site:
    what the site answers there decides what the fetcher does, and what
    it answers elsewhere changes nothing. An exception of the site goes
    to the [except] clause; a body it downloads is written at the path
    of that name, which is the path returned; no other file changes. *)
Theorem archive_of_current_year path (month : option Z) (force : bool)
    (w : world Coord) :
  let today := w_today w in
  let name := target_file month today in
  let url := WSPR_ARCHIVE +:+ name in
  let target := path_join path name in
  (∀ m, month = Some m → m ≠ 0 → target_month month today = m) ∧
  (month = None ∨ month = Some 0 →
   target_month month today = dt_month today) ∧
  (1000 <= dt_year today <= 9999 → 1 <= target_month month today <= 12 →
   name = archive_name (dt_year today) (target_month month today)) ∧
  (∀ net', net' url = w_net w url →
     download_archive path month force (set_net net' w)
     = (set_net net' (download_archive path month force w).1,
        (download_archive path month force w).2)) ∧
  (∀ e, w_net w url = UrlRaises e →
        download_archive path month force w
        = if is_URLError e then (logging INFO (MsgHTTPError e) w, Ok None)
          else (w, Raise e)) ∧
  (∀ len reads,
     w_net w url = UrlResponse len reads →
     force = true ∨ (∃ L, len = Some L ∧ get_size target w < L) →
     downloaded url w (download_archive path month force w).1 ∧
     w_files (download_archive path month force w).1
     = <[target := (copy_body reads []).1]> (w_files w) ∧
     ((copy_body reads []).2 = None →
      (download_archive path month force w).2 = Ok (Some target))) ∧
  (∀ p, (download_archive path month force w).2 = Ok (Some p) → p = target) ∧
  (∀ p, p ≠ target →
        w_files (download_archive path month force w).1 !! p = w_files w !! p).
Proof.
  intros today name url target.
  split. { intros m -> Hm. unfold target_month. by rewrite (proj2 (Z.eqb_neq m 0)). }
  split. { by intros [-> | ->]. }
  split.
  { intros Hy Hm. unfold name, target_file, WSPR_FILE_format, archive_name.
    by rewrite (format_year _ Hy), (format_month _ Hm). }
  subst name. subst url.
  change (WSPR_ARCHIVE +:+ target_file month today)
    with (urljoin WSPR_ARCHIVE (target_file month today)).
  set (url := urljoin WSPR_ARCHIVE (target_file month today)).
  split; [|split; [|split; [|split]]].
  - intros net' Hnet. unfold download_archive. simpl. fold today url target.
    rewrite Hnet.
    destruct (w_net w url) as [e|len reads].
    + unfold except_URLError. by destruct (is_URLError e).
    + destruct (copy_body reads []) as [content [e|]];
        destruct force, len as [len|]; simpl;
        unfold except_URLError, get_size; simpl;
        repeat case_match; done.
  - intros e Hnet. unfold download_archive. fold today url.
    by rewrite Hnet.
  - intros len reads Hnet Hgo.
    rewrite (download_archive_forced path month force w len reads Hnet Hgo).
    fold today target url. simpl.
    destruct (copy_body reads []).2 as [e|]; simpl.
    + destruct (except_URLError e _) as [w1 r1] eqn:He.
      apply except_URLError_log in He as [Hfiles Hlog]. simpl.
      split; [|split; [by rewrite Hfiles|done]].
      unfold downloaded. destruct Hlog as [->| ->]; simpl.
      * by exists [].
      * rewrite <- app_assoc. by eexists.
    + split; [by exists []|done].
  - intros p. unfold download_archive. simpl. fold today url target.
    destruct (w_net w url) as [e|len reads].
    + unfold except_URLError. by destruct (is_URLError e).
    + destruct (copy_body reads []) as [content [e|]];
        destruct force, len as [len|]; simpl;
        unfold except_URLError; simpl;
        repeat case_match; simpl; congruence.
  - intros p Hp. unfold download_archive. simpl. fold today url target.
    destruct (w_net w url) as [e|len reads].
    + unfold except_URLError. by destruct (is_URLError e).
    + destruct (copy_body reads []) as [content [e|]];
        destruct force, len as [len|]; simpl;
        unfold except_URLError; simpl;
        repeat case_match; simpl; by rewrite ?lookup_insert_ne.
Qed.

(** A log entry that is not a timer message with a rate. *)
Definition no_rate (entry : level * msg) : bool :=
  match entry.2 with
  | MsgTimer _ _ _ _ _ (Some _) => false
  | _ => true
  end.

(** [w'] has the log of [w] and more entries, none with a rate. *)
Definition quiet (w w' : world Coord) : Prop :=
  ∃ new, w_log w' = w_log w ++ new ∧ Forall (λ entry, no_rate entry = true) new.

Lemma quiet_same (w w' : world Coord) : w_log w' = w_log w → quiet w w'.
Proof. intros H. exists []. by rewrite app_nil_r. Qed.

Lemma quiet_trans (w1 w2 w3 : world Coord) :
  quiet w1 w2 → quiet w2 w3 → quiet w1 w3.
Proof.
  intros (new1 & H1 & Hn1) (new2 & H2 & Hn2). exists (new1 ++ new2).
  split; [by rewrite H2, H1, <- app_assoc|by apply Forall_app].
Qed.

Lemma quiet_logging (l : level) (m : msg) (w : world Coord) :
  no_rate (l, m) = true → quiet w (logging l m w).
Proof. intros Hm. exists [(l, m)]. split; [done|by constructor]. Qed.

Lemma quiet_time_time (w : world Coord) : quiet w (time_time w).2.
Proof. apply quiet_same. by destruct (time_time_frame w) as (_ & _ & -> & _). Qed.

Lemma quiet_Timer_0 {A : Type} (title : string)
    (body : world Coord → option (world Coord * result A)) (w w' : world Coord)
    (r : result A) :
  (∀ w0 w1 r1, body w0 = Some (w1, r1) → quiet w0 w1) →
  Timer title 0 body w = Some (w', r) → quiet w w'.
Proof.
  intros Hbody. rewrite Timer_0.
  destruct (body (time_time w).2) as [[w1 r1]|] eqn:Hb; [|done]. simpl.
  intros [= <- <-]. apply Hbody in Hb.
  destruct (Timer_exit_0 title (time_time w).1 w1) as (? & ? & ? & ? & ->).
  simpl. eapply quiet_trans; [apply quiet_time_time|].
  eapply quiet_trans; [exact Hb|].
  eapply quiet_trans; [apply quiet_time_time|]. by apply quiet_logging.
Qed.

Lemma quiet_download_archive path (month : option Z) (force : bool)
    (w w' : world Coord) res :
  download_archive path month force w = (w', res) → quiet w w'.
Proof.
  unfold download_archive.
  set (target := path_join path (target_file month (w_today w))).
  set (url := urljoin WSPR_ARCHIVE (target_file month (w_today w))).
  assert (∀ e w0 w1 r1, except_URLError e w0 = (w1, r1) → quiet w0 w1) as Hex.
  { intros e w0 w1 r1 [_ [H|H]]%except_URLError_log.
    - by apply quiet_same.
    - exists [(INFO, MsgHTTPError e)]. split; [done|by constructor]. }
  destruct (w_net w url) as [e|len reads]; [by apply Hex|].
  destruct (copy_body reads []) as [content err].
  assert (∀ w1 r1,
    match err with
    | Some e => except_URLError e
                  (write_file target content
                     (logging INFO (MsgDownloading url) w))
    | None => (write_file target content
                 (logging INFO (MsgDownloading url) w),
               Ok (Some target))
    end = (w1, r1) → quiet w w1) as Hdl.
  { intros w1 r1 Hd.
    eapply quiet_trans; [by apply (quiet_logging INFO (MsgDownloading url))|].
    destruct err as [e|].
    - eapply quiet_trans; [|by eapply Hex]. by apply quiet_same.
    - injection Hd as <- _. by apply quiet_same. }
  destruct force; [by apply Hdl|].
  destruct len as [len|]; [|by apply Hex].
  destruct (len <=? get_size target w); [|by apply Hdl].
  intros [= <- _]. by apply quiet_logging.
Qed.

Lemma quiet_last_id_of (w : world Coord) : quiet w (last_id_of w).1.
Proof.
  unfold last_id_of. destruct (w_db w) as [db|] eqn:Hdb.
  - destruct (DBConnect _ _) as [[db' tr] [result|e]]; simpl.
    + exists [(INFO, MsgCountingRecords); (INFO, MsgLastId (default 0 result))].
      split; [simpl; by rewrite <- app_assoc|by repeat constructor].
    + by apply (quiet_logging INFO MsgCountingRecords).
  - destruct (create_db None) as [[db' tr] r]. by apply quiet_same.
Qed.

Lemma quiet_wspr_import (filename : string) (start_id : Z)
    (w w' : world Coord) res :
  wspr_import filename start_id w = Some (w', res) → quiet w w'.
Proof.
  unfold wspr_import.
  destruct (import_records _ _ _) as [[[db tr] [n|e]]|]; simpl; [| |done].
  - intros [= <- _]. exists [(INFO, MsgRecordsProcessed n)].
    split; [done|by constructor].
  - intros [= <- _]. by apply quiet_same.
Qed.

Lemma quiet_main_import (filename : string) (w w' : world Coord) res :
  main_import filename w = Some (w', res) → quiet w w'.
Proof.
  unfold main_import. intros Hrun.
  eapply quiet_trans; [by apply (quiet_logging INFO (MsgDatabase DB_NAME))|].
  pose proof (quiet_last_id_of (logging INFO (MsgDatabase DB_NAME) w)) as Hq.
  destruct (last_id_of _) as [w1 [last_id|e]]; simpl in Hq.
  - eapply quiet_trans; [exact Hq|].
    eapply quiet_trans; [by apply (quiet_logging INFO (MsgImporting filename))|].
    destruct (Timer _ _ _ _) as [[w2 r2]|] eqn:Ht; [|done]. simpl in Hrun.
    apply quiet_Timer_0 in Ht; [|apply quiet_wspr_import].
    eapply quiet_trans; [exact Ht|].
    destruct r2; injection Hrun as <- _.
    + by apply quiet_logging.
    + by apply quiet_same.
  - by injection Hrun as <- _.
Qed.

(** C7, as the code has it. Whatever a run of [main] imports, no timer
    message it logs has a rate: both timers are made without
    [nb_lines]. *)
Theorem main_never_logs_a_rate (opts : options) (w w' : world Coord)
    (r : result unit) :
  main opts w = Some (w', r) →
  ∃ new, w_log w' = w_log w ++ new ∧
         Forall (λ entry, no_rate entry = true) new.
Proof.
  unfold main. intros Hrun.
  assert (∀ w1 f, (if truthy (opt_filename opts)
                   then Some (w, Ok (opt_filename opts))
                   else Timer "Download archive" 0
                          (λ w, Some (download_archive WSPR_PATH (opt_month opts)
                                        (opt_force opts) w)) w)
                  = Some (w1, f) → quiet w w1) as Hresolve.
  { intros w1 f. destruct (truthy _).
    - intros [= <- _]. by apply quiet_same.
    - apply quiet_Timer_0. intros w0 w2 r2 [= Hd].
      by eapply quiet_download_archive. }
  destruct (if truthy _ then _ else _) as [[w1 f]|]; [|done].
  specialize (Hresolve w1 f eq_refl). simpl in Hrun.
  destruct f as [filename|e]; [|by injection Hrun as <- _].
  destruct (negb (truthy filename) || _).
  - injection Hrun as <- _. eapply quiet_trans; [exact Hresolve|].
    by apply quiet_logging.
  - eapply quiet_trans; [exact Hresolve|]. by eapply quiet_main_import.
Qed.

(** The schema script is not idempotent: on a database that has the
    table and an index named [idx_time], [create_db] raises. *)
Lemma create_db_existing (db : database Coord) :
  "wspr" ∈ tables db → is_Some (indexes db !! "idx_time") →
  (create_db (Some db)).2 = Raise OperationalError.
Proof.
  intros Ht Hi. unfold create_db, DBConnect, executescript, connect. simpl.
  rewrite decide_True by done. simpl. by rewrite decide_True.
Qed.

End Claims.

(** * More properties of the pipeline *)

Section Extras.

Context {Coord : Type} `{!Platform Coord}.

Implicit Types (a : archive) (line : string) (w : world Coord)
  (db : database Coord) (odb : option (database Coord)).

(** X1. [Timer.__exit__] logs one message. Its hour, minute and second
    parts make up the whole seconds of the elapsed time, the seconds and
    the minutes below 60, and the hour and minute parts are left out
    when they are zero. The message has the rate exactly when [nb_lines]
    is not zero; with [nb_lines] not zero and no time elapsed the
    division raises [ZeroDivisionError] and nothing is logged. *)
Theorem Timer_exit_message (title : string) (nb_lines start : Z) w :
  let elapsed := (time_time w).1 - start in
  match Timer_exit title nb_lines start w with
  | (w', None) =>
      ∃ hour minute sec milliseconds rate,
        w_log w' = w_log w
                   ++ [(INFO, MsgTimer title hour minute sec milliseconds rate)] ∧
        Z.quot elapsed 1000
        = (default 0 hour * 60 + default 0 minute) * 60 + sec ∧
        0 <= sec < 60 ∧ 0 <= default 0 minute < 60 ∧
        hour ≠ Some 0 ∧ minute ≠ Some 0 ∧
        rate = (if nb_lines =? 0 then None else Some (nb_lines, elapsed)) ∧
        (nb_lines = 0 ∨ elapsed ≠ 0)
  | (w', Some e) =>
      e = ZeroDivisionError ∧ nb_lines ≠ 0 ∧ elapsed = 0 ∧ w_log w' = w_log w
  end.
Proof.
  intros elapsed. unfold Timer_exit.
  pose proof (time_time_frame w) as (_ & _ & Hlog & _).
  subst elapsed. destruct (time_time w) as [now w0]. simpl in *.
  set (elapsed := now - start).
  set (secs := Z.quot elapsed 1000).
  pose proof (Z.div_mod secs 60 ltac:(lia)) as Hs.
  pose proof (Z.mod_pos_bound secs 60 ltac:(lia)) as Hsb.
  pose proof (Z.div_mod (secs / 60) 60 ltac:(lia)) as Hm.
  pose proof (Z.mod_pos_bound (secs / 60) 60 ltac:(lia)) as Hmb.
  assert (secs = (default 0 (if secs / 60 / 60 =? 0 then None
                             else Some (secs / 60 / 60)) * 60
                  + default 0 (if (secs / 60) mod 60 =? 0 then None
                               else Some ((secs / 60) mod 60))) * 60
                 + secs mod 60 ∧
          0 <= default 0 (if (secs / 60) mod 60 =? 0 then None
                          else Some ((secs / 60) mod 60)) < 60 ∧
          (if secs / 60 / 60 =? 0 then None else Some (secs / 60 / 60))
          ≠ Some 0 ∧
          (if (secs / 60) mod 60 =? 0 then None else Some ((secs / 60) mod 60))
          ≠ Some 0) as (Hparts & Hminute & Hh0 & Hm0).
  { destruct (Z.eqb_spec (secs / 60 / 60) 0) as [Hh|Hh];
      destruct (Z.eqb_spec ((secs / 60) mod 60) 0) as [Hmm|Hmm]; simpl;
      repeat split; try lia; try discriminate; intros [= ?]; lia. }
  destruct (Z.eqb_spec nb_lines 0) as [Hn|Hn].
  - eexists _, _, _, _, _. simpl. rewrite Hlog.
    split; [done|]. split; [exact Hparts|]. split; [lia|].
    split; [exact Hminute|]. split; [exact Hh0|]. split; [exact Hm0|].
    split; [done|by left].
  - destruct (Z.eqb_spec elapsed 0) as [He|He].
    + by repeat split.
    + eexists _, _, _, _, _. simpl. rewrite Hlog.
      split; [done|]. split; [exact Hparts|]. split; [lia|].
      split; [exact Hminute|]. split; [exact Hh0|]. split; [exact Hm0|].
      split; [done|by right].
Qed.












(** The row ids a connection sees: those of the database and those of
    its open transaction. *)
Definition keys (c : connection Coord) : list Z :=
  spot_id <$> (rows (c_db c) ++ c_pending c).

Lemma insert_rows_keys (c c' : connection Coord) bulk err :
  insert_rows c bulk = (c', err) → NoDup (keys c) → NoDup (keys c').
Proof.
  revert c. induction bulk as [|r bulk IH]; intros c; simpl.
  - by intros [= <- _].
  - destruct (insert_row c r) as [c1|ex] eqn:Hr; [|by intros [= <- _]].
    apply insert_row_Ok in Hr as (k & _ & Hk & ->).
    intros Hrest Hnd. apply (IH _ Hrest). unfold keys. simpl.
    rewrite app_assoc, fmap_app. simpl.
    apply NoDup_app. split; [exact Hnd|]. split; [|apply NoDup_singleton].
    intros x Hx ->%list_elem_of_singleton.
    unfold key_taken in Hk. apply bool_decide_eq_false in Hk. by apply Hk.
Qed.

Lemma run_batches_keys (c c' : connection Coord) bs e (counter : Z) res :
  run_batches c bs e counter = (c', res) → NoDup (keys c) → NoDup (keys c').
Proof.
  revert c counter. induction bs as [|b bs IH]; intros c counter; simpl.
  - by intros [= <- _].
  - unfold executemany.
    destruct (decide ("wspr" ∈ tables (c_db c))) as [Ht|Ht].
    + destruct (insert_rows c b) as [c1 [ex|]] eqn:Hins.
      * intros [= <- _] Hnd. by apply (insert_rows_keys _ _ _ _ Hins).
      * intros Hrest Hnd. apply (IH _ _ Hrest).
        by apply (insert_rows_keys _ _ _ _ Hins).
    + by intros [= <- _].
Qed.

(** X3. The ids of the store stay distinct: if no two rows of the
    database have the same [spot_id] before an import, none have after
    it, whether the import returns or raises. *)
Theorem import_keeps_ids_distinct odb (g : gen) db' tr (res : result Z) :
  NoDup (spot_id <$> rows (default empty_database odb)) →
  import_records BULK_LENGTH odb g = Some (db', tr, res) →
  NoDup (spot_id <$> rows db').
Proof.
  intros Hnd. unfold import_records.
  rewrite (import_loop_spec _ BULK_LENGTH g (connect odb) 0 BULK_LENGTH_pos)
    by lia.
  destruct (run_batches _ _ _ _) as [c' res'] eqn:Hrun. simpl.
  intros [= <- _ _]. apply run_batches_keys in Hrun.
  - exact Hrun.
  - unfold keys, connect. simpl. by rewrite app_nil_r.
Qed.

Lemma concat_batches_raise (B : nat) (recs : list (record Coord)) (ex : exn) :
  (0 < B)%nat →
  concat (batches B recs (Some ex)) = take (length recs / B * B) recs.
Proof.
  intros HB. remember (length recs) as n eqn:Hn. revert recs Hn.
  induction (lt_wf n) as [n _ IH]. intros recs ->.
  destruct (decide (length recs < B)%nat) as [Hlt|Hge].
  - rewrite (batches_last _ _ _ Hlt), Nat.div_small by done. done.
  - rewrite batches_step by lia. simpl.
    rewrite (IH (length (drop B recs))) with (recs := drop B recs);
      [|rewrite length_drop; lia|done].
    rewrite take_take_drop, length_drop. f_equal.
    replace (length recs) with ((length recs - B) + 1 * B)%nat at 2 by lia.
    rewrite Nat.div_add by lia. lia.
Qed.

(** X4. When the reader raises and no call of [executemany] failed, the
    import raises the exception of the reader, and what it has added to
    the store is the full batches only: of the k records read before the
    exception, the first ⌊k/1000⌋·1000, the others being dropped. *)
Theorem reader_exception_drops_partial_batch odb a (start_id : Z) db' tr
    (res : result Z) (ex : exn) :
  import_records BULK_LENGTH odb (read_spots a start_id) = Some (db', tr, res) →
  (drain (read_spots a start_id)).2 = Some ex →
  (∀ bulk e, ¬ In (OpExecutemany bulk (Some e)) tr) →
  let recs := (drain (read_spots a start_id)).1 in
  res = Raise ex ∧
  ∃ rs, rows db' = rows (default empty_database odb) ++ rs ∧
        columns <$> rs
        = take (length recs / BULK_LENGTH * BULK_LENGTH) recs.
Proof.
  intros Himp Hex Hnofail recs. unfold import_records in Himp.
  rewrite (import_loop_spec _ BULK_LENGTH _ (connect odb) 0 BULK_LENGTH_pos)
    in Himp by lia.
  rewrite Hex in Himp. fold recs in Himp.
  destruct (run_batches _ _ _ _) as [c' res'] eqn:Hrun. simpl in Himp.
  injection Himp as <- <- <-.
  apply run_batches_spec in Hrun
    as (Hdb & written & failed & rs & Htr & Hp & _ & (part & Hpart)
        & (tail & Htail) & _ & Hres).
  simpl in Hdb, Htr, Hp.
  destruct res' as [n|ex1]; [by destruct Hres as (_ & _ & [=] & _)|].
  destruct Hres as [(-> & -> & [= <-])|(b & rest & _ & ->)].
  - split; [done|]. exists rs. split; [by rewrite Hdb, Hp|].
    rewrite <- (concat_batches_raise _ _ ex BULK_LENGTH_pos).
    rewrite Hpart in Htail. rewrite <- app_assoc in Htail.
    apply (f_equal length) in Htail. rewrite !length_app in Htail.
    destruct part; [by rewrite app_nil_r in Hpart|]. simpl in Htail. lia.
  - exfalso. apply (Hnofail b ex1). unfold DBConnect_exit, close, commit.
    simpl. rewrite Htr. rewrite <- !app_assoc. simpl. right.
    apply in_or_app. left. apply in_or_app. right. by left.
Qed.

(** The row id SQLite reads in a record, and a record [INSERT] takes:
    nineteen values, the first one a row id. *)
Definition key_of (r : record Coord) : option Z :=
  r !! 0%nat ≫= sqlite_rowid.

Definition insertable (r : record Coord) : Prop :=
  length r = INSERT_bindings ∧ is_Some (key_of r).

Lemma keyed_omap (rs : list (row Coord)) :
  Forall keyed rs → omap key_of (columns <$> rs) = spot_id <$> rs.
Proof.
  induction 1 as [|row rs [_ Hk] _ IH]; [done|].
  simpl. unfold key_of at 1. rewrite Hk. simpl. f_equal. exact IH.
Qed.

Lemma insert_rows_ok (c : connection Coord) (bulk : list (record Coord)) :
  Forall insertable bulk → NoDup (omap key_of bulk) →
  (∀ k, k ∈ omap key_of bulk → k ∉ keys c) →
  ∃ c', insert_rows c bulk = (c', None).
Proof.
  revert c. induction bulk as [|r bulk IH]; intros c Hins Hnd Hnew; simpl.
  - by eexists.
  - apply Forall_cons in Hins as [[Hlen [k Hk]] Hins].
    simpl in Hnd, Hnew. rewrite Hk in Hnd, Hnew. simpl in Hnd, Hnew.
    apply NoDup_cons in Hnd as [Hk' Hnd].
    unfold insert_row. rewrite Hlen, Nat.eqb_refl. simpl.
    unfold key_of in Hk. rewrite Hk.
    assert (key_taken c k = false) as ->.
    { apply bool_decide_eq_false. apply Hnew. by left. }
    apply IH; [done..|].
    intros k' Hin. unfold keys. simpl. rewrite app_assoc, fmap_app. simpl.
    intros [Hold| ->%list_elem_of_singleton]%elem_of_app.
    + apply (Hnew k'); [by right|done].
    + done.
Qed.

Lemma run_batches_ok (c : connection Coord) (bs : list (list (record Coord)))
    (counter : Z) :
  "wspr" ∈ tables (c_db c) →
  Forall insertable (concat bs) → NoDup (omap key_of (concat bs)) →
  (∀ k, k ∈ omap key_of (concat bs) → k ∉ keys c) →
  ∃ c', run_batches c bs None counter
        = (c', Ok (counter + Z.of_nat (length (concat bs)))).
Proof.
  revert c counter. induction bs as [|b bs IH]; intros c counter Ht Hins Hnd Hnew;
    simpl.
  - eexists. do 2 f_equal. lia.
  - simpl in Hins, Hnd, Hnew. rewrite omap_app in Hnd, Hnew.
    apply Forall_app in Hins as [Hb Hbs].
    apply NoDup_app in Hnd as (Hndb & Hdisj & Hndbs).
    destruct (insert_rows_ok c b Hb Hndb) as [c1 Hc1].
    { intros k Hk. apply Hnew, elem_of_app. by left. }
    unfold executemany. rewrite decide_True by done. rewrite Hc1.
    pose proof (insert_rows_spec _ _ _ _ Hc1) as (Hdb & _ & rs & Hp & Hrs & Hcols).
    simpl in Hcols.
    destruct (IH (traced (OpExecutemany b None) c1)
                (counter + Z.of_nat (length b))) as [c' Hc'].
    + simpl. by rewrite Hdb.
    + done.
    + done.
    + intros k Hk. unfold keys. simpl. rewrite Hdb, Hp, app_assoc, fmap_app.
      rewrite <- (keyed_omap rs Hrs), Hcols.
      intros [Hold|Hb']%elem_of_app.
      * apply (Hnew k); [apply elem_of_app; by right|done].
      * by apply (Hdisj k).
    + exists c'. rewrite Hc'. do 2 f_equal. rewrite length_app. lia.
Qed.

(** X5. An archive imports completely when the reader ends without an
    exception, every record it yields has the nineteen values of
    [INSERT] and an id SQLite reads, and no id comes twice: run from the
    watermark of a database that has the table, the import returns the
    number of records read and the store holds them, in order, after
    the rows it had. *)
Theorem well_formed_archive_imports odb a :
  let db0 := default empty_database odb in
  let recs := (drain (read_spots a (watermark db0))).1 in
  ints_agree →
  "wspr" ∈ tables db0 →
  (drain (read_spots a (watermark db0))).2 = None →
  Forall insertable recs →
  NoDup (record_id <$> recs) →
  ∃ db' tr rs,
    import_records BULK_LENGTH odb (read_spots a (watermark db0))
    = Some (db', tr, Ok (Z.of_nat (length recs))) ∧
    rows db' = rows db0 ++ rs ∧ columns <$> rs = recs.
Proof.
  intros db0 recs Hagree Ht Hend Hins Hnd.
  assert (Forall (λ r, ∃ id, record_id r = Some id ∧ key_of r = Some id
                             ∧ watermark db0 < id) recs) as Hids.
  { pose proof (drain_ids_above a (watermark db0)) as Habove.
    fold recs in Habove.
    apply List.Forall_forall. intros r Hr.
    pose proof (proj1 (List.Forall_forall _ _) Habove r Hr) as (id & Hid & Hlt).
    pose proof (proj1 (List.Forall_forall _ _) Hins r Hr) as [_ [k Hk]].
    exists id. split; [done|]. split; [|done]. rewrite Hk. f_equal.
    unfold record_id in Hid. unfold key_of in Hk.
    destruct r as [|[s|x] r]; try done. simpl in Hk.
    symmetry. by apply (Hagree s). }
  assert (Some <$> omap key_of recs = record_id <$> recs) as Hsame.
  { clear -Hids. induction Hids as [|r rs (id & Hid & Hk & _) _ IH]; [done|].
    simpl. rewrite Hk, Hid. simpl. by f_equal. }
  assert (NoDup (omap key_of recs)) as Hndk.
  { rewrite <- Hsame in Hnd. eapply NoDup_fmap_1. exact Hnd. }
  destruct (concat_batches BULK_LENGTH recs None BULK_LENGTH_pos)
    as (tail & Hconcat & Htail).
  rewrite (Htail eq_refl), app_nil_r in Hconcat.
  destruct (run_batches_ok (connect odb) (batches BULK_LENGTH recs None) 0)
    as [c' Hrun].
  - done.
  - by rewrite <- Hconcat.
  - by rewrite <- Hconcat.
  - rewrite <- Hconcat. intros k Hk Hold.
    apply list_elem_of_omap in Hk as (r & Hr & Hk).
    apply list_elem_of_In in Hr.
    pose proof (proj1 (List.Forall_forall _ _) Hids r Hr)
      as (id & _ & Hk' & Hlt).
    assert (k = id) as -> by congruence.
    unfold keys, connect in Hold. simpl in Hold. rewrite app_nil_r in Hold.
    apply list_elem_of_fmap in Hold as (row & -> & Hrow).
    apply list_elem_of_In, watermark_ge in Hrow. fold db0 in Hrow. lia.
  - rewrite <- Hconcat in Hrun. simpl in Hrun.
    pose proof (run_batches_spec _ _ _ _ _ _ Hrun)
      as (Hdb & written & failed & rs & _ & Hp & _ & _ & _ & _ & Hres).
    destruct Hres as (_ & _ & _ & Hcols & _).
    eexists _, _, rs. unfold import_records.
    rewrite (import_loop_spec _ BULK_LENGTH _ (connect odb) 0 BULK_LENGTH_pos)
      by lia.
    rewrite Hend. fold db0 recs. rewrite Hrun. simpl. split; [done|].
    unfold commit. simpl. rewrite Hdb, Hp. simpl.
    split; [done|]. by rewrite Hcols, <- Hconcat.
Qed.

(** The reads of a body: chunks that are not empty, then the end of the
    body or a read that raises. *)
Lemma copy_body_chunks (chunks : list (list Byte.byte)) (rest : list read_result)
    (written : list Byte.byte) :
  Forall (λ b, b ≠ []) chunks →
  copy_body ((Chunk <$> chunks) ++ rest) written
  = match rest with
    | [] | Chunk [] :: _ => (written ++ concat chunks, None)
    | ReadRaises e :: _ => (written ++ concat chunks, Some e)
    | Chunk (x :: b) :: rest' =>
        copy_body rest' ((written ++ concat chunks) ++ x :: b)
    end.
Proof.
  intros Hne. revert written.
  induction Hne as [|b chunks Hb _ IH]; intros written; simpl.
  - rewrite app_nil_r. by destruct rest as [|[[|x b]|e] rest'].
  - destruct b as [|x b]; [done|]. rewrite IH. simpl.
    rewrite <- !app_assoc. by destruct rest as [|[[|y b']|e] rest'].
Qed.

Lemma download_archive_frame path (month : option Z) (force : bool) w :
  w_net (download_archive path month force w).1 = w_net w ∧
  w_today (download_archive path month force w).1 = w_today w ∧
  w_db (download_archive path month force w).1 = w_db w.
Proof.
  unfold download_archive.
  destruct (w_net w _) as [e|len reads].
  - unfold except_URLError. by destruct (is_URLError e).
  - destruct (copy_body reads []) as [content [e|]];
      destruct force, len as [len|]; simpl;
      unfold except_URLError; simpl; repeat case_match; done.
Qed.

(** X6. A download whose reads all return: the fetcher returns the path
    of the local file, which holds the chunks read, in order, up to the
    end of the body. A later call without [force], the site reporting the
    same length L, finds no new data when the file has at least L bytes,
    and downloads again when the body was shorter than L. *)
Theorem complete_download_is_fresh path (month : option Z) (force : bool) w
    (L : Z) (chunks : list (list Byte.byte)) (rest : list read_result) :
  let target := path_join path (target_file month (w_today w)) in
  let url := urljoin WSPR_ARCHIVE (target_file month (w_today w)) in
  let w1 := (download_archive path month force w).1 in
  w_net w url = UrlResponse (Some L) ((Chunk <$> chunks) ++ rest) →
  Forall (λ b, b ≠ []) chunks →
  rest = [] ∨ (∃ rest', rest = Chunk [] :: rest') →
  get_size target w < L ∨ force = true →
  (download_archive path month force w).2 = Ok (Some target) ∧
  w_files w1 !! target = Some (concat chunks) ∧
  get_size target w1 = Z.of_nat (length (concat chunks)) ∧
  (L <= Z.of_nat (length (concat chunks)) →
   download_archive path month false w1
   = (logging INFO (MsgNoNewData url) w1, Ok None)) ∧
  (Z.of_nat (length (concat chunks)) < L →
   downloaded url w1 (download_archive path month false w1).1).
Proof.
  intros target url w1 Hnet Hne Hrest Hgo.
  assert (copy_body ((Chunk <$> chunks) ++ rest) [] = (concat chunks, None))
    as Hcopy.
  { rewrite copy_body_chunks by done.
    by destruct Hrest as [->|[rest' ->]]. }
  assert (force = true ∨ ∃ L0, Some L = Some L0 ∧ get_size target w < L0)
    as Hgo' by (destruct Hgo; [right; by exists L|by left]).
  pose proof (download_archive_forced path month force w (Some L) _ Hnet Hgo')
    as Hdl.
  fold target url in Hdl. rewrite Hcopy in Hdl. simpl in Hdl.
  pose proof (download_archive_frame path month force w) as (Hn1 & Ht1 & _).
  fold w1 in Hn1, Ht1.
  assert (w_files w1 !! target = Some (concat chunks)) as Hfile.
  { unfold w1. rewrite Hdl. simpl. apply lookup_insert_eq. }
  assert (get_size target w1 = Z.of_nat (length (concat chunks))) as Hsize.
  { unfold get_size. by rewrite Hfile. }
  split; [by rewrite Hdl|]. split; [done|]. split; [done|].
  assert (w_net w1 (urljoin WSPR_ARCHIVE (target_file month (w_today w1)))
          = UrlResponse (Some L) ((Chunk <$> chunks) ++ rest)) as Hnet1.
  { by rewrite Hn1, Ht1. }
  split.
  - intros Hlen. unfold download_archive. rewrite Hnet1, Ht1.
    fold target url. rewrite Hsize, (proj2 (Z.leb_le _ _) Hlen). done.
  - intros Hlen.
    assert (false = true ∨
            ∃ L0, Some L = Some L0 ∧
                  get_size (path_join path (target_file month (w_today w1))) w1
                  < L0) as Hgo1.
    { right. exists L. split; [done|]. rewrite Ht1. fold target. lia. }
    rewrite (download_archive_forced path month false w1 (Some L) _ Hnet1 Hgo1).
    rewrite Hcopy, Ht1. fold target url. simpl. by exists [].
Qed.

(** X7. A download in which a read raises: the local file has already
    been replaced by the chunks read before the failure, whatever it
    held. The fetcher returns no path when the exception is a
    [URLError], and lets any other exception through. *)
Theorem failed_download_leaves_partial_file path (month : option Z)
    (force : bool) w (len : option Z) (chunks : list (list Byte.byte))
    (e : exn) (rest : list read_result) :
  let target := path_join path (target_file month (w_today w)) in
  let url := urljoin WSPR_ARCHIVE (target_file month (w_today w)) in
  w_net w url = UrlResponse len ((Chunk <$> chunks) ++ ReadRaises e :: rest) →
  Forall (λ b, b ≠ []) chunks →
  force = true ∨ (∃ L, len = Some L ∧ get_size target w < L) →
  w_files (download_archive path month force w).1 !! target
  = Some (concat chunks) ∧
  (download_archive path month force w).2
  = if is_URLError e then Ok None else Raise e.
Proof.
  intros target url Hnet Hne Hgo.
  rewrite (download_archive_forced path month force w len _ Hnet Hgo).
  fold target url. rewrite copy_body_chunks by done. simpl.
  unfold except_URLError. destruct (is_URLError e); simpl;
    by rewrite lookup_insert_eq.
Qed.

(** X8. What [read_spots] does with one line. A leading field that is
    not an integer raises [ValueError]. A line whose id is at or below
    the watermark is skipped whatever else it holds. Above the
    watermark, a line with fewer than four fields raises [IndexError],
    an exception of the resolver on the transmitter grid goes through,
    and the receiver lookup reads index 7 of the list the transmitter
    pair has made longer: nothing for fewer than six fields
    ([IndexError]), the transmitter longitude for six and the
    transmitter latitude for seven. *)
Theorem read_line_outcomes (start_id : Z) line :
  (line_id line = None → read_line start_id line = Fail ValueError) ∧
  (∀ id, line_id line = Some id → id <= start_id →
         read_line start_id line = Skip) ∧
  (∀ id, line_id line = Some id → start_id < id →
     ((length (line_fields (Coord := Coord) line) < 4)%nat →
      read_line start_id line = Fail IndexError) ∧
     (∀ tx e, line_fields line !! 3%nat = Some tx →
              grid2latlon tx = Raise e →
              read_line start_id line = Fail e) ∧
     (∀ tx tx_lat tx_lon,
        line_fields line !! 3%nat = Some tx →
        grid2latlon tx = Ok (tx_lat, tx_lon) →
        ((length (line_fields (Coord := Coord) line) < 6)%nat →
         read_line start_id line = Fail IndexError) ∧
        ((length (line_fields (Coord := Coord) line) = 6)%nat →
         read_line start_id line
         = match grid2latlon (FFloat tx_lon) with
           | Ok (rx_lat, rx_lon) =>
               Emit (line_fields line
                     ++ [FFloat tx_lat; FFloat tx_lon;
                         FFloat rx_lat; FFloat rx_lon])
           | Raise e => Fail e
           end) ∧
        ((length (line_fields (Coord := Coord) line) = 7)%nat →
         read_line start_id line
         = match grid2latlon (FFloat tx_lat) with
           | Ok (rx_lat, rx_lon) =>
               Emit (line_fields line
                     ++ [FFloat tx_lat; FFloat tx_lon;
                         FFloat rx_lat; FFloat rx_lon])
           | Raise e => Fail e
           end))).
Proof.
  unfold read_line, line_id, line_fields, record.
  pose proof (split_nonempty "," (PyStr.rstrip line)) as Hne.
  set (fs := PyStr.split "," (PyStr.rstrip line)) in *.
  destruct (fs !! 0%nat) as [f0|] eqn:H0; [|by destruct fs].
  cbn [mbind option_bind].
  split; [by intros ->|].
  split.
  { intros id -> Hle. by rewrite (proj2 (Z.leb_le _ _) Hle). }
  intros id -> Hlt. rewrite (proj2 (Z.leb_gt _ _) Hlt).
  split.
  { intros Hlen. rewrite length_fmap in Hlen.
    by rewrite (lookup_ge_None_2 (FStr <$> fs) 3)
      by (rewrite length_fmap; lia). }
  split.
  { intros tx e -> ->. done. }
  intros tx tx_lat tx_lon -> ->.
  rewrite !length_fmap.
  split; [|split].
  - intros Hlen.
    by rewrite (lookup_ge_None_2 _ 7)
      by (rewrite length_app, length_fmap; simpl; lia).
  - intros Hlen.
    rewrite lookup_app_r by (rewrite length_fmap; lia).
    rewrite length_fmap, Hlen. simpl.
    destruct (grid2latlon (FFloat tx_lon)) as [[rx_lat rx_lon]|e]; [|done].
    by rewrite <- app_assoc.
  - intros Hlen.
    rewrite lookup_app_r by (rewrite length_fmap; lia).
    rewrite length_fmap, Hlen. simpl.
    destruct (grid2latlon (FFloat tx_lat)) as [[rx_lat rx_lon]|e]; [|done].
    by rewrite <- app_assoc.
Qed.

(** The same run in a world with another network. *)
Definition with_net {A : Type} (net : string → urlopen_result)
    (run : option (world Coord * result A)) : option (world Coord * result A) :=
  (λ '(w', r), (set_net net w', r)) <$> run.

Lemma time_time_net (net : string → urlopen_result) w :
  time_time (set_net net w) = ((time_time w).1, set_net net (time_time w).2).
Proof. unfold time_time. simpl. by destruct (w_clock w). Qed.

Lemma Timer_exit_net (net : string → urlopen_result) (title : string)
    (nb_lines start : Z) w :
  Timer_exit title nb_lines start (set_net net w)
  = (set_net net (Timer_exit title nb_lines start w).1,
     (Timer_exit title nb_lines start w).2).
Proof.
  unfold Timer_exit. rewrite time_time_net.
  destruct (time_time w) as [now w0]. simpl.
  destruct (nb_lines =? 0); [done|]. by destruct (now - start =? 0).
Qed.

Lemma Timer_net {A : Type} (net : string → urlopen_result) (title : string)
    (nb_lines : Z) (body : world Coord → option (world Coord * result A)) w :
  (∀ w0, body (set_net net w0) = with_net net (body w0)) →
  Timer title nb_lines body (set_net net w)
  = with_net net (Timer title nb_lines body w).
Proof.
  intros Hbody. unfold Timer. rewrite time_time_net.
  destruct (time_time w) as [start w0]. simpl. rewrite Hbody.
  destruct (body w0) as [[w1 r]|]; [|done]. simpl.
  rewrite Timer_exit_net. by destruct (Timer_exit title nb_lines start w1).
Qed.

Lemma main_import_net (net : string → urlopen_result) (filename : string) w :
  main_import filename (set_net net w) = with_net net (main_import filename w).
Proof.
  unfold main_import.
  assert (∀ w0, last_id_of (set_net net w0)
                = (set_net net (last_id_of w0).1, (last_id_of w0).2)) as Hlast.
  { intros w0. unfold last_id_of. simpl. destruct (w_db w0) as [db|].
    - by destruct (DBConnect _ _) as [[db' tr] [result|e]].
    - by destruct (create_db None) as [[db' tr] r]. }
  assert (∀ last_id w0,
            wspr_import filename last_id (set_net net w0)
            = with_net net (wspr_import filename last_id w0)) as Himp.
  { intros last_id w0. unfold wspr_import, open_archive. simpl.
    destruct (import_records _ _ _) as [[[db' tr] [n|e]]|]; done. }
  change (logging INFO (MsgDatabase DB_NAME) (set_net net w))
    with (set_net net (logging INFO (MsgDatabase DB_NAME) w)).
  rewrite Hlast.
  destruct (last_id_of (logging INFO (MsgDatabase DB_NAME) w))
    as [w1 [last_id|e]]; simpl; [|done].
  change (logging INFO (MsgImporting filename) (set_net net w1))
    with (set_net net (logging INFO (MsgImporting filename) w1)).
  rewrite (Timer_net net _ _ _ _ (Himp last_id)).
  destruct (Timer _ _ _ _) as [[w2 [u|e]]|]; done.
Qed.

(** X9. With a file name on the command line, [main] does not use the
    options [force] and [month] and does not consult the network; and
    when no file of that name exists it logs that there is nothing to
    import and returns, without creating or opening the database. *)
Theorem main_with_filename (opts : options) w :
  truthy (opt_filename opts) = true →
  main opts w = main (Options false (opt_filename opts) None) w ∧
  (∀ net, main opts (set_net net w) = with_net net (main opts w)) ∧
  (w_files w !! default "" (opt_filename opts) = None →
   main opts w = Some (logging WARNING MsgNothingToImport w, Ok tt)).
Proof.
  intros Hfile. unfold main. simpl. rewrite Hfile. simpl. rewrite !Hfile.
  simpl. split; [done|]. split.
  - intros net. unfold path_exists. simpl.
    destruct (bool_decide _); simpl; [apply main_import_net|done].
  - intros Hnone. unfold path_exists. rewrite Hnone.
    rewrite bool_decide_eq_false_2 by (by intros [? ?]). done.
Qed.

Lemma main_import_no_table (filename : string) w db :
  w_db w = Some db → "wspr" ∉ tables db →
  ∃ w', main_import filename w = Some (w', Raise OperationalError) ∧
        w_db w' = Some db ∧ w_files w' = w_files w ∧
        w_dbtrace w'
        = w_dbtrace w ++ [OpConnect; OpSelectMax; OpCommit; OpClose] ∧
        w_log w'
        = w_log w ++ [(INFO, MsgDatabase DB_NAME); (INFO, MsgCountingRecords)].
Proof.
  intros Hdb Ht. unfold main_import.
  set (wa := logging INFO (MsgDatabase DB_NAME) w).
  assert (w_db wa = Some db) as Hwa by done.
  unfold last_id_of. rewrite Hwa.
  unfold DBConnect, select_max, connect, DBConnect_exit, close, commit.
  cbn [w_db logging c_db c_pending c_trace default fst snd].
  rewrite Hwa. cbn [default]. rewrite decide_False by done.
  eexists. split; [reflexivity|]. simpl. rewrite app_nil_r.
  split; [by destruct db|]. split; [done|]. split; [done|].
  by rewrite <- app_assoc.
Qed.

(** X10. A database file that exists without the table [wspr] is not
    initialised: [create_db] is called only when the file is missing, so
    the query of the watermark raises [OperationalError], which ends the
    run; the database is left as it was. *)
Theorem database_without_table_is_not_created (filename : string) w db :
  w_db w = Some db → "wspr" ∉ tables db →
  ∃ w', main_import filename w = Some (w', Raise OperationalError) ∧
        w_db w' = Some db ∧ w_files w' = w_files w ∧
        w_dbtrace w'
        = w_dbtrace w ++ [OpConnect; OpSelectMax; OpCommit; OpClose] ∧
        w_log w'
        = w_log w ++ [(INFO, MsgDatabase DB_NAME); (INFO, MsgCountingRecords)].
Proof. apply main_import_no_table. Qed.

End Extras.

(** * Properties of the configuration object *)

Section ConfigFacts.

Import Config.

Context {V : Type} `{!Env V}.

Implicit Types (files : gmap string (list Byte.byte)) (d : document V)
  (inst : instance (V := V)).

(** The file [__init__] looks for in a location. *)
Definition config_path (path : string) : string :=
  expanduser (path_join path CONFIG_FILENAME).

Lemma read_first_found files (before after : list string) (path : string)
    (content : list Byte.byte) d :
  Forall (λ p, files !! config_path p = None) before →
  files !! config_path path = Some content →
  read_first files (before ++ path :: after) d
  = match read_config content with
    | Ok d' => (d', [DebugReading (config_path path)], Done tt)
    | Raise ValueError =>
        (d, [DebugReading (config_path path); ErrorConfiguration ValueError],
         Failed (SystemExit EX_CONFIG))
    | Raise e => (d, [DebugReading (config_path path)], Failed (Uncaught e))
    end.
Proof.
  intros Hbefore Hfile.
  induction Hbefore as [|p before Hp _ IH]; simpl.
  - fold (config_path path). by rewrite Hfile.
  - fold (config_path p). by rewrite Hp.
Qed.

Lemma read_first_missing files (locations : list string) d :
  Forall (λ p, files !! config_path p = None) locations →
  read_first files locations d
  = (d, [ErrorNotFound CONFIG_FILENAME], Failed (SystemExit EX_CONFIG)).
Proof.
  induction 1 as [|p locations Hp _ IH]; simpl; [done|].
  fold (config_path p). by rewrite Hp.
Qed.

(** X11. The first call of [Config] reads the file of the first
    location, in the order [/etc], [~/.local], [.], that has one, and no
    other: what the later locations hold and the argument
    [config_filename] change nothing. When that file reads as a document
    the call returns it; when reading it raises [ValueError] the call
    exits with status 78 without trying the later locations; another
    exception goes through. *)
Theorem config_first_location_wins (config_filename : option string) files
    (before after : list string) (path : string) (content : list Byte.byte) :
  CONFIG_LOCATIONS = before ++ path :: after →
  Forall (λ p, files !! config_path p = None) before →
  files !! config_path path = Some content →
  Config config_filename files None
  = match read_config content with
    | Ok d => (Some d, [DebugReading (config_path path)], Done d)
    | Raise ValueError =>
        (Some (DocMap ∅),
         [DebugReading (config_path path); ErrorConfiguration ValueError],
         Failed (SystemExit 78))
    | Raise e =>
        (Some (DocMap ∅), [DebugReading (config_path path)],
         Failed (Uncaught e))
    end.
Proof.
  intros Hlocs Hbefore Hfile. unfold Config, init, new, loaded.
  rewrite bool_decide_eq_true_2 by done. cbn [negb].
  rewrite Hlocs, (read_first_found files before after path content _ Hbefore Hfile).
  by destruct (read_config content) as [d|[]].
Qed.

(** X12. When no location has the file, a call of [Config] on an object
    that holds no configuration logs that the file is not found and
    exits with status 78; the object stays installed as it was, so the
    next call looks for the file again. *)
Theorem config_not_found_exits (config_filename : option string) files inst :
  loaded (new inst) = false →
  Forall (λ p, files !! config_path p = None) CONFIG_LOCATIONS →
  Config config_filename files inst
  = (Some (new inst), [ErrorNotFound CONFIG_FILENAME],
     Failed (SystemExit 78)).
Proof.
  intros Hempty Hmissing. unfold Config, init. rewrite Hempty.
  by rewrite (read_first_missing files CONFIG_LOCATIONS _ Hmissing).
Qed.

(** X13. The configuration is read once: after a call of [Config] that
    returned a mapping that is not empty, every call returns that
    mapping and reads no file, whatever the files hold by then. *)
Theorem config_is_read_once (cf cf' : option string) files files' inst inst1
    (log : list log_entry) d :
  Config cf files inst = (inst1, log, Done d) →
  loaded d = true →
  Config cf' files' inst1 = (inst1, [], Done d).
Proof.
  unfold Config. destruct (init cf files (new inst)) as [[d1 log1] [u|f]];
    [|done].
  intros [= <- _ <-] Hloaded. unfold init. simpl. by rewrite Hloaded.
Qed.

(** X14. An empty configuration file is accepted: the first call of
    [Config] returns. But every lookup [config[key]] in the object then
    raises the [TypeError] of [key not in None], not [KeyError], and so
    does [config.attr] for a name that is not an attribute of the
    object; and the next call of [Config] reads the files again. *)
Theorem empty_config_file_breaks_lookups (cf : option string) files
    (before after : list string) (path : string) (content : list Byte.byte) :
  CONFIG_LOCATIONS = before ++ path :: after →
  Forall (λ p, files !! config_path p = None) before →
  files !! config_path path = Some content →
  read_config content = Ok DocNone →
  Config cf files None
  = (Some DocNone, [DebugReading (config_path path)], Done DocNone) ∧
  (∀ key, getitem (DocNone (V := V)) key = Failed NoneNotIterable) ∧
  (∀ attr, dunder attr = false → ¬ In attr attributes →
           get_attribute (DocNone (V := V)) attr = Failed NoneNotIterable) ∧
  Config cf files (Some DocNone)
  = (Some DocNone, [DebugReading (config_path path)], Done DocNone).
Proof.
  intros Hlocs Hbefore Hfile Hread.
  assert (∀ attr, ¬ In attr attributes →
                  get_attribute (DocNone (V := V)) attr
                  = Failed NoneNotIterable) as Hattr.
  { intros attr Hattr. unfold get_attribute.
    destruct (String.eqb_spec attr "_instance") as [->|_];
      [destruct Hattr; simpl; tauto|].
    destruct (String.eqb_spec attr "config_data") as [->|_];
      [destruct Hattr; simpl; tauto|].
    destruct (String.eqb_spec attr "log") as [->|_];
      [destruct Hattr; simpl; tauto|].
    destruct (String.eqb_spec attr "_read_config") as [->|_];
      [destruct Hattr; simpl; tauto|].
    done. }
  unfold Config, init, new, loaded.
  rewrite bool_decide_eq_true_2 by done. cbn [negb].
  rewrite Hlocs, !(read_first_found files before after path content _ Hbefore Hfile).
  rewrite Hread. split; [done|]. split; [done|]. split; [|done].
  intros attr _. apply Hattr.
Qed.

(** X15. Lookups in the object a first call of [Config] returns for a
    file that reads as a mapping. [config[key]] gives the value the
    mapping has for the key and raises [KeyError] when it has none.
    [config.key] does the same for a name that is not an attribute of
    the object; for [_instance], [config_data], [log] and
    [_read_config] it gives the attribute, whatever the mapping has
    under that key. *)
Theorem loaded_config_lookup (cf : option string) files
    (before after : list string) (path : string) (content : list Byte.byte)
    (m : gmap string V) :
  CONFIG_LOCATIONS = before ++ path :: after →
  Forall (λ p, files !! config_path p = None) before →
  files !! config_path path = Some content →
  read_config content = Ok (DocMap m) →
  ∃ d, (Config cf files None).2 = Done d ∧
       ∀ key,
         getitem d key = match m !! key with
                         | Some v => Done v
                         | None => Failed KeyError
                         end ∧
         (dunder key = false → ¬ In key attributes →
          get_attribute d key = match m !! key with
                                | Some v => Done (Value v)
                                | None => Failed KeyError
                                end) ∧
         (In key attributes → ∀ v, get_attribute d key ≠ Done (Value v)).
Proof.
  intros Hlocs Hbefore Hfile Hread. unfold Config, init, new, loaded.
  rewrite bool_decide_eq_true_2 by done. cbn [negb].
  rewrite Hlocs, (read_first_found files before after path content _ Hbefore Hfile).
  rewrite Hread. exists (DocMap m). split; [done|]. intros key.
  split; [unfold getitem; by destruct (m !! key)|]. split.
  - intros _ Hattr. unfold get_attribute.
    destruct (String.eqb_spec key "_instance") as [->|_];
      [destruct Hattr; simpl; tauto|].
    destruct (String.eqb_spec key "config_data") as [->|_];
      [destruct Hattr; simpl; tauto|].
    destruct (String.eqb_spec key "log") as [->|_];
      [destruct Hattr; simpl; tauto|].
    destruct (String.eqb_spec key "_read_config") as [->|_];
      [destruct Hattr; simpl; tauto|].
    unfold getattr, getitem. by destruct (m !! key).
  - intros Hattr v. simpl in Hattr.
    destruct Hattr as [<-|[<-|[<-|[<-|[]]]]]; done.
Qed.

End ConfigFacts.

(** * Properties of the readers of [heat.py] *)

Section HeatFacts.

Import Heat.

Context {Coord T : Type} `{!Platform Coord} `{!Env Coord T}.

Implicit Types (db : database Coord) (start end_date : T)
  (files : gmap string (list Byte.byte)).

(** The positions of the columns the query of [load_data] names. *)
Lemma queried_columns :
  wspr_columns !! 1%nat = Some "time" ∧
  wspr_columns !! 15%nat = Some "tx_lat" ∧
  wspr_columns !! 16%nat = Some "tx_lon" ∧
  wspr_columns !! 17%nat = Some "rx_lat".
Proof. done. Qed.

(** X16. On a database that has the table, [load_data] returns one pair
    for each row whose time is in the range, in the order SQLite returns
    the rows: the pairs are those of columns 15 and 16, [tx_lat] and
    [tx_lon], of the selected rows, each once, the [rx_lat] the query
    selects being sliced away. For a row that holds the record of a
    fifteen-field line the pair is the one the resolver gave for the
    transmitter grid of the line. The database is left as it was,
    committed and closed. *)
Theorem load_data_transmitter_pairs db start (end_ : T) :
  "wspr" ∈ tables db →
  (∃ pairs,
     load_data (Some db) start end_
     = (db, [OpConnect; OpCommit; OpClose], Ok pairs) ∧
     Permutation pairs
       ((λ r, [column 15 r; column 16 r])
        <$> List.filter (selected start end_) (rows db))) ∧
  (∀ (r : row Coord) line,
     enriched line (columns r) →
     length (line_fields (Coord := Coord) line) = 15%nat →
     ∃ tx tx_lat tx_lon,
       line_fields line !! 3%nat = Some tx ∧
       grid2latlon tx = Ok (tx_lat, tx_lon) ∧
       slice_2_4 (select_list r)
       = [Some (FFloat tx_lat); Some (FFloat tx_lon)]).
Proof.
  intros Ht. split.
  - unfold load_data, DBConnect, execute_select, connect, DBConnect_exit,
      close, commit. simpl. rewrite decide_True by done. simpl.
    rewrite !app_nil_r. eexists. split.
    + f_equal. f_equal. by destruct db.
    + rewrite <- list_fmap_compose. apply fmap_Permutation.
      apply query_order_perm.
  - intros r line (tx & rx & tx_lat & tx_lon & rx_lat & rx_lon & Hr & Htx
                   & Hg & _) Hlen.
    exists tx, tx_lat, tx_lon. split; [done|]. split; [done|].
    unfold slice_2_4, select_list, column. simpl. rewrite Hr.
    unfold record. rewrite !lookup_app_r by lia. rewrite Hlen. done.
Qed.

(** X17. On a database file that is missing, [load_data] raises
    [OperationalError] and leaves an empty database behind, which
    [sqlite3.connect] has created. A run of the ingestion on that file
    then finds a database, does not create the schema and raises
    [OperationalError] too. *)
Theorem load_data_creates_empty_database start (end_ : T) (filename : string)
    (w : world Coord) :
  load_data None start end_
  = (empty_database, [OpConnect; OpCommit; OpClose], Raise OperationalError) ∧
  (w_db w = Some empty_database →
   ∃ w', main_import filename w = Some (w', Raise OperationalError) ∧
         w_db w' = Some empty_database).
Proof.
  split.
  - unfold load_data, DBConnect, execute_select, connect, DBConnect_exit,
      close, commit. simpl. rewrite decide_False by set_solver. done.
  - intros Hdb.
    destruct (main_import_no_table filename w empty_database Hdb)
      as (w' & Hrun & Hdb' & _); [set_solver|].
    by exists w'.
Qed.




Lemma strip_prefix_app (p s : string) : strip_prefix p (p +:+ s) = Some s.
Proof.
  induction p as [|c p IH]; [by destruct s|].
  change (String c p +:+ s) with (String c (p +:+ s)).
  cbn [strip_prefix]. by rewrite Ascii.eqb_refl.
Qed.

Lemma span_digits_app (digits rest : string) c :
  (∀ d, In d (list_ascii_of_string digits) → is_digit d = true) →
  is_digit c = false →
  span_digits (digits +:+ String c rest) = (digits, String c rest).
Proof.
  intros Hdigits Hc. induction digits as [|d digits IH].
  - change ("" +:+ String c rest) with (String c rest).
    cbn [span_digits]. by rewrite Hc.
  - change (String d digits +:+ String c rest)
      with (String d (digits +:+ String c rest)).
    cbn [span_digits]. rewrite (Hdigits d) by by left.
    rewrite IH; [done|]. intros d' Hd'. apply Hdigits. by right.
Qed.

(** X19. The names the image writers make, [world-] then digits then
    [.png], match the pattern of [purge_oldfiles] with those digits as
    the date, also when more characters follow [.png]; a name that does
    not start with [world-] does not match. *)
Theorem get_date_of_image_name (digits suffix : string) :
  digits ≠ "" →
  (∀ c, In c (list_ascii_of_string digits) → is_digit c = true) →
  get_date ("world-" +:+ digits +:+ ".png" +:+ suffix) = Some digits ∧
  (∀ name, strip_prefix "world-" name = None → get_date name = None).
Proof.
  intros Hne Hdigits. split; [|by intros name; unfold get_date; intros ->].
  unfold get_date. rewrite strip_prefix_app.
  change (".png" +:+ suffix) with (String "." ("png" +:+ suffix)).
  rewrite span_digits_app by done.
  destruct digits as [|d digits]; [done|].
  rewrite strip_prefix_app.
  change (Ascii.eqb "." "010") with false. cbn [negb andb].
  rewrite bool_decide_eq_true_2; [done|]. by eexists.
Qed.

End HeatFacts.

(** * The claims on concrete runs *)

Module Examples.

Import Demo.

Lemma demo_ints_agree : ints_agree (Coord := Z).
Proof. intros s i k Hi Hk. simpl in Hi, Hk. congruence. Qed.

(** A run whose projection is known returns. *)
Lemma run_result {A B : Type} (x : option A) (f : A → B) (b : B) :
  f <$> x = Some b → ∃ y, x = Some y ∧ f y = b.
Proof.
  destruct x as [y|]; simpl; [|discriminate].
  intros H. exists y. split; [reflexivity|congruence].
Defined.

(** C1 on three records: one call of [executemany], one commit. *)
Lemma import_batches_one_commit_witness :
  ∃ db' tr,
    import_records BULK_LENGTH (Some fresh_db)
      (read_spots (Archive (spot_lines 10 3) None) 0)
    = Some (db', tr, Ok 3) ∧
    length (List.filter is_commit tr) = 1%nat.
Proof.
  assert (snd <$> import_records BULK_LENGTH (Some fresh_db)
                    (read_spots (Archive (spot_lines 10 3) None) 0)
          = Some (Ok 3)) as Hrun by (vm_compute; reflexivity).
  apply run_result in Hrun as ([[db' tr] res] & H & Hres).
  simpl in Hres. subst res. exists db', tr. split; [exact H|].
  destruct (import_batches_one_commit _ _ _ _ _ _ H)
    as (_ & written & rs & _ & _ & _ & _ & Hc & _).
  exact Hc.
Defined.

(** C1 as stated fails on 1001 records: the two batches are written by
    two calls of [executemany], the first as soon as it is full, and
    there is one commit, not ⌈1001/1000⌉ = 2. *)
Lemma one_commit_for_two_batches :
  (λ '(db', tr, res),
     (length (rows db'), length (List.filter is_executemany tr),
      length (List.filter is_commit tr), res))
  <$> import_records BULK_LENGTH (Some fresh_db)
        (read_spots (Archive (spot_lines 1 1001) None) 0)
  = Some (1001%nat, 2%nat, 1%nat, Ok 1001) ∧
  (1001 + 1000 - 1) / 1000 = 2.
Proof. split; vm_compute; reflexivity. Qed.



(** C3 on the code: the second call of [create_db] stops at the first
    [CREATE INDEX] with an error, where the claim has it succeed. *)
Lemma create_db_twice_raises :
  create_db (Some fresh_db)
  = (fresh_db,
     [OpConnect; OpExecutescript (Some OperationalError); OpCommit; OpClose],
     Raise OperationalError).
Proof. vm_compute. reflexivity. Qed.



(** C6 on the three spots of [a.gz]: the second run imports nothing. *)
Lemma second_run_imports_nothing_witness :
  ints_agree (Coord := Z) ∧
  ∃ w1 w2,
    main_import "a.gz" (new_world no_network two_archives) = Some (w1, Ok tt) ∧
    main_import "a.gz" w1 = Some (w2, Ok tt) ∧ w_db w2 = w_db w1.
Proof.
  split; [exact demo_ints_agree|].
  assert (snd <$> main_import "a.gz" (new_world no_network two_archives)
          = Some (Ok tt)) as Hrun by (vm_compute; reflexivity).
  apply run_result in Hrun as ([w1 res] & H & Hres).
  simpl in Hres. subst res. exists w1.
  destruct (second_run_imports_nothing "a.gz" _ w1 demo_ints_agree H)
    as (db1 & w2 & hour & minute & sec & ms & Hdb1 & _ & _ & Hrun2 & Hdb2 & _).
  exists w2. split; [exact H|]. split; [exact Hrun2|]. congruence.
Defined.

(** C6 as stated fails when the store already holds a higher id: after
    the run on [b.gz] (id 100), a run on [a.gz] (ids 10 to 12) completes
    and leaves the watermark at 100, which is not the largest id of
    [a.gz]. *)
Lemma watermark_above_archive_maximum :
  (λ '(w2, res), (res, watermark <$> w_db w2,
                  max_Z (omap line_id (a_lines (open_archive "a.gz" w2)))))
  <$> ('(w1, _) ← main (Options false (Some "b.gz") None)
                     (new_world no_network two_archives);
       main (Options false (Some "a.gz") None) w1)
  = Some (Ok tt, Some 100, Some 12).
Proof. vm_compute. reflexivity. Qed.

(** C7 on a run that imports three records: the count is logged, and
    no timer message has a rate. *)
Lemma main_never_logs_a_rate_witness :
  ∃ w',
    main (Options false (Some "a.gz") None) (new_world no_network two_archives)
    = Some (w', Ok tt) ∧
    In (INFO, MsgRecordsProcessed 3) (w_log w') ∧
    ∃ new, w_log w' = [] ++ new ∧ Forall (λ entry, no_rate entry = true) new.
Proof.
  assert ((λ '(w', res), (res, w_log w'))
          <$> main (Options false (Some "a.gz") None)
                (new_world no_network two_archives)
          = Some (Ok tt,
                  [(INFO, MsgDatabase "wspr.db"); (INFO, MsgImporting "a.gz");
                   (INFO, MsgRecordsProcessed 3);
                   (INFO, MsgTimer "Import WSPR" None None 1 500 None);
                   (INFO, MsgCacheInfo)])) as Hrun
    by (vm_compute; reflexivity).
  apply run_result in Hrun as ([w' res] & H & Hres).
  simpl in Hres. injection Hres as -> Hlog.
  exists w'. split; [exact H|]. split.
  - rewrite Hlog. right. right. left. reflexivity.
  - exact (main_never_logs_a_rate _ _ _ _ H).
Defined.

(** C8 on the first record of [a.gz]. *)
Lemma stored_coordinates_are_resolved_witness :
  ∃ r line,
    In r (drain (read_spots (Archive (spot_lines 10 3) None) 0)).1 ∧
    In line (spot_lines 10 3) ∧ enriched line r.
Proof.
  assert (∃ r, hd_error (drain (read_spots (Archive (spot_lines 10 3) None) 0)).1
               = Some r) as [r Hr] by (vm_compute; eexists; reflexivity).
  assert (In r (drain (read_spots (Archive (spot_lines 10 3) None) 0)).1) as Hin.
  { destruct (drain _).1; [discriminate|]. injection Hr as ->. by left. }
  destruct (proj1 (stored_coordinates_are_resolved
                     (Archive (spot_lines 10 3) None) 0) r Hin)
    as (line & Hline & Hen).
  by exists r, line.
Defined.

(** C9 on a site that cannot be reached. *)
Lemma url_error_means_nothing_to_import_witness :
  let w := new_world no_network ∅ in
  truthy None = false ∧ is_URLError URLError = true ∧
  fetch_fails WSPR_PATH None false (time_time w).2 URLError ∧
  ∃ w2, main (Options false None None) w = Some (w2, Ok tt) ∧
        w_db w2 = w_db w.
Proof.
  intros w.
  assert (fetch_fails WSPR_PATH None false (time_time w).2 URLError) as Hfail
    by (left; vm_compute; reflexivity).
  split; [reflexivity|]. split; [reflexivity|]. split; [exact Hfail|].
  destruct (url_error_means_nothing_to_import (Options false None None) w
              URLError eq_refl eq_refl Hfail)
    as (w1 & w2 & before & hour & minute & sec & ms & _ & _ & Hrun & _ & Hdb & _).
  by exists w2.
Defined.

(** C9 as stated fails when the connection is reset while the body is
    read: the exception is a network error, it is raised during the
    download, and [main] lets it through. *)
Lemma connection_reset_propagates :
  let w := new_world (site (UrlResponse (Some 10)
                              [Chunk [Byte.x31]; ReadRaises ConnectionResetError]))
             ∅ in
  is_network_error ConnectionResetError = true ∧
  fetch_fails WSPR_PATH None false (time_time w).2 ConnectionResetError ∧
  (λ '(w', res), (res, w_log w')) <$> main (Options false None None) w
  = Some (Raise ConnectionResetError,
          [(INFO, MsgDownloading july_url);
           (INFO, MsgTimer "Download archive" None None 1 500 None)]).
Proof.
  intros w. split; [reflexivity|]. split.
  - right. exists (Some 10), [Chunk [Byte.x31]; ReadRaises ConnectionResetError].
    split; [vm_compute; reflexivity|]. split; [|reflexivity].
    right. exists 10. split; [reflexivity|]. vm_compute. reflexivity.
  - vm_compute. reflexivity.
Qed.

(** C10 on requests for December and for March made in July 2023, and
    on a download of the archive of March. *)
Lemma archive_of_current_year_witness :
  let resp := UrlResponse (Some 2) [Chunk [Byte.x31; Byte.x32]] in
  let w := new_world (λ url, if String.eqb url
                                  "http://wsprnet.org/archive/wsprspots-2023-03.csv.gz"
                             then resp else UrlRaises HTTPError) ∅ in
  target_month (Some 12) (w_today w) = 12 ∧
  target_file (Some 12) (w_today w) = "wsprspots-2023-12.csv.gz" ∧
  target_file (Some 3) (w_today w) = "wsprspots-2023-03.csv.gz" ∧
  w_files (download_archive "/tmp" (Some 3) false w).1
  = {[ "/tmp/wsprspots-2023-03.csv.gz" := [Byte.x31; Byte.x32] ]} ∧
  (download_archive "/tmp" (Some 3) false w).2
  = Ok (Some "/tmp/wsprspots-2023-03.csv.gz").
Proof.
  intros resp w.
  destruct (archive_of_current_year "/tmp" (Some 12) false w)
    as (Hmonth & _ & Hname12 & _).
  destruct (archive_of_current_year "/tmp" (Some 3) false w)
    as (_ & _ & Hname3 & _ & _ & Hget & _).
  split; [exact (Hmonth 12 eq_refl ltac:(discriminate))|].
  split.
  { rewrite Hname12; [vm_compute; reflexivity|vm_compute; split; discriminate..]. }
  split.
  { rewrite Hname3; [vm_compute; reflexivity|vm_compute; split; discriminate..]. }
  destruct (Hget (Some 2) [Chunk [Byte.x31; Byte.x32]])
    as (_ & Hfiles & Hres).
  - vm_compute. reflexivity.
  - right. exists 2. split; [reflexivity|]. vm_compute. reflexivity.
  - split.
    + rewrite Hfiles. vm_compute. reflexivity.
    + rewrite (Hres ltac:(vm_compute; reflexivity)). vm_compute. reflexivity.
Defined.

(** C5 as stated fails on an archive with a line that has no id: the
    reader yields the record of id 10, raises [ValueError] on the second
    line and never yields the record of the third line, whose id 12 is
    above the watermark 0 and which it yields when the second line is
    not there. *)
Lemma unreadable_line_hides_later_records :
  let a := Archive [spot_line 10; "bad,line"; spot_line 12] None in
  (record_id <$> (drain (read_spots a 0)).1, (drain (read_spots a 0)).2)
  = ([Some 10], Some ValueError) ∧
  line_id (spot_line 12) = Some 12 ∧
  (record_id <$> (drain (read_spots (Archive [spot_line 10; spot_line 12] None)
                           0)).1,
   (drain (read_spots (Archive [spot_line 10; spot_line 12] None) 0)).2)
  = ([Some 10; Some 12], None).
Proof. intros a. split; [|split]; vm_compute; reflexivity. Qed.

End Examples.

(** * The other properties on concrete runs *)

Module MoreExamples.

Import Demo Samples Config Heat Examples.

Lemma holds {P : Prop} `{!Decision P} : bool_decide P = true → P.
Proof. apply bool_decide_eq_true_1. Defined.


(** X3 on the import of three spots. *)
Lemma import_keeps_ids_distinct_witness :
  NoDup (spot_id <$> rows (default empty_database (Some fresh_db))) ∧
  ∃ db' tr,
    import_records BULK_LENGTH (Some fresh_db)
      (read_spots (Archive (spot_lines 10 3) None) 0)
    = Some (db', tr, Ok 3) ∧
    NoDup (spot_id <$> rows db').
Proof.
  assert (NoDup (spot_id <$> rows (default empty_database (Some fresh_db))))
    as Hnd by (vm_compute; constructor).
  split; [exact Hnd|].
  assert (snd <$> import_records BULK_LENGTH (Some fresh_db)
                    (read_spots (Archive (spot_lines 10 3) None) 0)
          = Some (Ok 3)) as Hrun by (vm_compute; reflexivity).
  apply run_result in Hrun as ([[db' tr] res] & H & Hres).
  simpl in Hres. subst res. exists db', tr. split; [exact H|].
  exact (import_keeps_ids_distinct _ _ _ _ _ Hnd H).
Defined.

(** No call of [executemany] of a trace failed. *)
Definition no_failed_call (tr : list (db_op Z)) : bool :=
  forallb (λ op, match op with OpExecutemany _ (Some _) => false | _ => true end)
    tr.

Lemma no_failed_call_spec (tr : list (db_op Z)) :
  no_failed_call tr = true → ∀ bulk e, ¬ In (OpExecutemany bulk (Some e)) tr.
Proof.
  intros H bulk e Hin.
  pose proof (proj1 (forallb_forall _ _) H _ Hin) as Hop. discriminate.
Defined.

(** An archive whose second line has no id. *)
Definition short_broken_archive : archive :=
  Archive [spot_line 10; "bad,line"; spot_line 12] None.

(** X4 on an archive that breaks after one record: the record is
    dropped. *)
Lemma reader_exception_drops_partial_batch_witness :
  (drain (read_spots short_broken_archive 0)).2 = Some ValueError ∧
  length (drain (read_spots short_broken_archive 0)).1 = 1%nat ∧
  ∃ db' tr,
    import_records BULK_LENGTH (Some fresh_db)
      (read_spots short_broken_archive 0)
    = Some (db', tr, Raise ValueError) ∧
    (∀ bulk e, ¬ In (OpExecutemany bulk (Some e)) tr) ∧
    ∃ rs, rows db' = rows (default empty_database (Some fresh_db)) ++ rs ∧
          columns <$> rs
          = take (length (drain (read_spots short_broken_archive 0)).1
                  / BULK_LENGTH * BULK_LENGTH)
              (drain (read_spots short_broken_archive 0)).1.
Proof.
  assert ((drain (read_spots short_broken_archive 0)).2 = Some ValueError)
    as Hex by (vm_compute; reflexivity).
  split; [exact Hex|]. split; [vm_compute; reflexivity|].
  assert ((λ '(db', tr, res), (no_failed_call tr, res))
          <$> import_records BULK_LENGTH (Some fresh_db)
                (read_spots short_broken_archive 0)
          = Some (true, Raise ValueError)) as Hrun by (vm_compute; reflexivity).
  apply run_result in Hrun as ([[db' tr] res] & H & Hres).
  simpl in Hres. injection Hres as Hok ->.
  exists db', tr. split; [exact H|].
  split; [exact (no_failed_call_spec tr Hok)|].
  exact (proj2 (reader_exception_drops_partial_batch _ _ _ _ _ _ _ H Hex
                  (no_failed_call_spec tr Hok))).
Defined.

(** The records of a list have the nineteen values and an id. *)
Definition insertableb (recs : list (record Z)) : bool :=
  forallb (λ r, (length r =? INSERT_bindings)%nat
                && bool_decide (is_Some (key_of r))) recs.

Lemma insertableb_spec (recs : list (record Z)) :
  insertableb recs = true → Forall insertable recs.
Proof.
  intros H. apply List.Forall_forall. intros r Hr.
  pose proof (proj1 (forallb_forall _ _) H _ Hr) as Hb.
  apply andb_prop in Hb as [Hlen Hkey]. split.
  - by apply Nat.eqb_eq.
  - by apply bool_decide_eq_true in Hkey.
Defined.

(** X5 on the archive of three spots. *)
Lemma well_formed_archive_imports_witness :
  ints_agree (Coord := Z) ∧
  "wspr" ∈ tables (default empty_database (Some fresh_db)) ∧
  ∃ db' tr rs,
    import_records BULK_LENGTH (Some fresh_db)
      (read_spots (Archive (spot_lines 10 3) None)
         (watermark (default empty_database (Some fresh_db))))
    = Some (db', tr, Ok 3) ∧
    rows db' = rows (default empty_database (Some fresh_db)) ++ rs ∧
    length rs = 3%nat.
Proof.
  assert ("wspr" ∈ tables (default empty_database (Some fresh_db))) as Ht
    by (apply holds; vm_compute; reflexivity).
  split; [exact demo_ints_agree|]. split; [exact Ht|].
  destruct (well_formed_archive_imports (Some fresh_db)
              (Archive (spot_lines 10 3) None) demo_ints_agree Ht)
    as (db' & tr & rs & Hrun & Hrows & Hcols).
  - vm_compute. reflexivity.
  - apply insertableb_spec. vm_compute. reflexivity.
  - apply holds. vm_compute. reflexivity.
  - exists db', tr, rs. split; [|split; [exact Hrows|]].
    + rewrite Hrun. vm_compute. reflexivity.
    + rewrite <- (length_fmap columns), Hcols. vm_compute. reflexivity.
Defined.

(** X6 on a body of two bytes that the site reports as two bytes. *)
Lemma complete_download_is_fresh_witness :
  let w := new_world (site (UrlResponse (Some 2) [Chunk [Byte.x31; Byte.x32]])) ∅ in
  let w1 := (download_archive "/tmp" None false w).1 in
  get_size "/tmp/wsprspots-2023-07.csv.gz" w < 2 ∧
  (download_archive "/tmp" None false w).2
  = Ok (Some "/tmp/wsprspots-2023-07.csv.gz") ∧
  download_archive "/tmp" None false w1
  = (logging INFO (MsgNoNewData july_url) w1, Ok None).
Proof.
  intros w w1.
  assert (get_size "/tmp/wsprspots-2023-07.csv.gz" w < 2) as Hsize
    by (vm_compute; reflexivity).
  split; [exact Hsize|].
  destruct (complete_download_is_fresh "/tmp" None false w 2
              [[Byte.x31; Byte.x32]] [])
    as (Hres & _ & _ & Hagain & _).
  - vm_compute. reflexivity.
  - constructor; [discriminate|constructor].
  - left. reflexivity.
  - left. exact Hsize.
  - split; [exact Hres|]. apply Hagain. vm_compute. discriminate.
Defined.

(** X7 on a connection that is reset after one byte. *)
Lemma failed_download_leaves_partial_file_witness :
  let w := new_world (site (UrlResponse (Some 10)
                              [Chunk [Byte.x31]; ReadRaises ConnectionResetError]))
             ∅ in
  w_files (download_archive "/tmp" None true w).1
    !! "/tmp/wsprspots-2023-07.csv.gz" = Some [Byte.x31] ∧
  (download_archive "/tmp" None true w).2 = Raise ConnectionResetError.
Proof.
  intros w.
  exact (failed_download_leaves_partial_file "/tmp" None true w (Some 10)
           [[Byte.x31]] ConnectionResetError []
           ltac:(vm_compute; reflexivity)
           ltac:(constructor; [discriminate|constructor])
           ltac:(left; reflexivity)).
Defined.

(** X9 on a run with a file name, [--force] and a month. *)
Lemma main_with_filename_witness :
  truthy (Some "a.gz") = true ∧
  main (Options true (Some "a.gz") (Some 3)) (new_world no_network two_archives)
  = main (Options false (Some "a.gz") None) (new_world no_network two_archives).
Proof.
  split; [reflexivity|].
  exact (proj1 (main_with_filename (Options true (Some "a.gz") (Some 3))
                  (new_world no_network two_archives) eq_refl)).
Defined.

(** X10 on a database file that is empty. *)
Lemma database_without_table_is_not_created_witness :
  w_db empty_db_world = Some empty_database ∧
  ("wspr" ∉ tables (empty_database (Coord := Z))) ∧
  (∃ w', main_import "a.gz" empty_db_world = Some (w', Raise OperationalError) ∧
         w_db w' = Some empty_database).
Proof.
  assert ("wspr" ∉ tables (empty_database (Coord := Z))) as Ht
    by (apply holds; vm_compute; reflexivity).
  split; [reflexivity|]. split; [exact Ht|].
  destruct (database_without_table_is_not_created "a.gz" empty_db_world
              empty_database eq_refl Ht) as (w' & Hrun & Hdb & _).
  by exists w'.
Defined.

(** X11 on a configuration in the second location. *)
Lemma config_first_location_wins_witness :
  CONFIG_LOCATIONS = ["/etc"] ++ "~/.local" :: ["."] ∧
  config_path "~/.local" = "/home/op/.local/wsprstats.yaml" ∧
  Config None home_config None
  = (Some (DocMap {[ "db_name" := "/var/wspr.db" ]}),
     [DebugReading "/home/op/.local/wsprstats.yaml"],
     Done (DocMap {[ "db_name" := "/var/wspr.db" ]})).
Proof.
  split; [reflexivity|]. split; [vm_compute; reflexivity|].
  rewrite (config_first_location_wins None home_config ["/etc"] ["."]
             "~/.local" (list_byte_of_string "db_name: /var/wspr.db") eq_refl).
  - vm_compute. reflexivity.
  - constructor; [vm_compute; reflexivity|constructor].
  - vm_compute. reflexivity.
Defined.

(** X12 with no file at all. *)
Lemma config_not_found_exits_witness :
  Config (V := string) None ∅ None
  = (Some (DocMap ∅), [ErrorNotFound "wsprstats.yaml"], Failed (SystemExit 78)).
Proof.
  apply (config_not_found_exits None ∅ None).
  - vm_compute. reflexivity.
  - repeat constructor.
Defined.

(** X13 after the configuration of the second location has been read:
    a call with no file at all returns it. *)
Lemma config_is_read_once_witness :
  Config None home_config None
  = (Some (DocMap {[ "db_name" := "/var/wspr.db" ]}),
     [DebugReading "/home/op/.local/wsprstats.yaml"],
     Done (DocMap {[ "db_name" := "/var/wspr.db" ]})) ∧
  Config None ∅ (Some (DocMap {[ "db_name" := "/var/wspr.db" ]}))
  = (Some (DocMap {[ "db_name" := "/var/wspr.db" ]}), [],
     Done (DocMap {[ "db_name" := "/var/wspr.db" ]})).
Proof.
  assert (Config None home_config None
          = (Some (DocMap {[ "db_name" := "/var/wspr.db" ]}),
             [DebugReading "/home/op/.local/wsprstats.yaml"],
             Done (DocMap {[ "db_name" := "/var/wspr.db" ]}))) as H
    by (vm_compute; reflexivity).
  split; [exact H|].
  apply (config_is_read_once None None home_config ∅ None _ _ _ H).
  vm_compute. reflexivity.
Defined.

(** X14 on an empty file in [/etc]. *)
Lemma empty_config_file_breaks_lookups_witness :
  read_config (V := string) [] = Ok DocNone ∧
  Config None empty_config None
  = (Some DocNone, [DebugReading "/etc/wsprstats.yaml"], Done DocNone) ∧
  getitem (DocNone (V := string)) "db_name" = Failed NoneNotIterable ∧
  get_attribute (DocNone (V := string)) "db_name" = Failed NoneNotIterable.
Proof.
  split; [reflexivity|].
  destruct (empty_config_file_breaks_lookups None empty_config []
              ["~/.local"; "."] "/etc" [] eq_refl)
    as (Hcall & Hget & Hattr & _).
  - constructor.
  - vm_compute. reflexivity.
  - reflexivity.
  - split; [exact Hcall|]. split; [apply Hget|].
    apply Hattr; [reflexivity|].
    intros [H|[H|[H|[H|[]]]]]; discriminate.
Defined.

(** X15 on the configuration of the second location. *)
Lemma loaded_config_lookup_witness :
  read_config (list_byte_of_string "db_name: /var/wspr.db")
  = Ok (DocMap {[ "db_name" := "/var/wspr.db" ]}) ∧
  ∃ d, (Config None home_config None).2 = Done d ∧
       getitem d "db_name" = Done "/var/wspr.db" ∧
       get_attribute d "db_name" = Done (Value "/var/wspr.db") ∧
       get_attribute d "ffmpeg" = Failed KeyError.
Proof.
  assert (read_config (list_byte_of_string "db_name: /var/wspr.db")
          = Ok (DocMap {[ "db_name" := "/var/wspr.db" ]})) as Hread
    by (vm_compute; reflexivity).
  split; [exact Hread|].
  destruct (loaded_config_lookup None home_config ["/etc"] ["."] "~/.local"
              (list_byte_of_string "db_name: /var/wspr.db")
              {[ "db_name" := "/var/wspr.db" ]} eq_refl)
    as (d & Hd & Hget).
  - constructor; [vm_compute; reflexivity|constructor].
  - vm_compute. reflexivity.
  - exact Hread.
  - exists d. split; [exact Hd|]. split; [|split].
    + rewrite (proj1 (Hget "db_name")). vm_compute. reflexivity.
    + rewrite (proj1 (proj2 (Hget "db_name")) eq_refl).
      * vm_compute. reflexivity.
      * intros [H|[H|[H|[H|[]]]]]; discriminate.
    + rewrite (proj1 (proj2 (Hget "ffmpeg")) eq_refl).
      * vm_compute. reflexivity.
      * intros [H|[H|[H|[H|[]]]]]; discriminate.
Defined.

(** X16 on the database of three spots sent from the locator [FN]:
    three times the latitude 40 and the longitude -80. *)
Lemma load_data_transmitter_pairs_witness :
  "wspr" ∈ tables spots_db ∧
  ∃ pairs,
    (load_data (Some spots_db) 1600000000 1800000000).2 = Ok pairs ∧
    Permutation pairs
      [[Some (FFloat 40); Some (FFloat (-80))];
       [Some (FFloat 40); Some (FFloat (-80))];
       [Some (FFloat 40); Some (FFloat (-80))]].
Proof.
  assert ("wspr" ∈ tables spots_db) as Ht
    by (apply holds; vm_compute; reflexivity).
  split; [exact Ht|].
  destruct (proj1 (load_data_transmitter_pairs spots_db 1600000000 1800000000
                     Ht)) as (pairs & Hrun & Hperm).
  exists pairs. split; [by rewrite Hrun|].
  assert ((λ r : row Z, [column 15 r; column 16 r])
          <$> List.filter (selected (Coord := Z) 1600000000 1800000000)
                (rows spots_db)
          = [[Some (FFloat 40); Some (FFloat (-80))];
             [Some (FFloat 40); Some (FFloat (-80))];
             [Some (FFloat 40); Some (FFloat (-80))]]) as Heq
    by (vm_compute; reflexivity).
  rewrite <- Heq. exact Hperm.
Defined.

(** X19 on the name of the image of 1 July 2023 at noon. *)
Lemma get_date_of_image_name_witness :
  get_date "world-202307011200.png" = Some "202307011200" ∧
  strptime "202307011200" = Some 202307011200.
Proof.
  split; [|vm_compute; reflexivity].
  refine (proj1 (get_date_of_image_name "202307011200" "" _ _)).
  - discriminate.
  - intros c Hc. simpl in Hc.
    repeat (destruct Hc as [<-|Hc]; [reflexivity|]). contradiction.
Defined.

End MoreExamples.
